(** * ragcourse: crawl-and-index engine, keyword extraction and text chunking

    A shallow embedding of [src/ragcourse/__init__.py] and the properties of
    its specification.

    - Python [str] is [string]; [len] is [String.length], injected into [Z]
      where the source does integer arithmetic on it.
    - The [articles] table is the list of its rows in rowid order; the table
      is append-only (the program never deletes), so the rowid of a row is its
      position in the list.
    - The two external collaborators, [run_llm] (the generation service) and
      [fetch_page_data] (HTTP fetch and HTML parsing) are oracles over an
      abstract [World]: each call may fail and may change the world, so that
      nothing is assumed about their determinism.
    - An [int] that is bound to a parameter of a SQL statement has to fit a
      signed 64-bit integer: [execute] raises [OverflowError] otherwise.
    - Unbounded constructs ([while True], the crawl's recursion) take a fuel
      argument; [None] means that the fuel ran out, never a result of the
      program. *)

From Stdlib Require Import ZArith QArith Qround Lqa Ascii String List Lia Bool DecimalString Sorted.
From stdpp Require Import base tactics option list strings.

#[local] Open Scope Z_scope.

(** ** Strings *)

Module Str.

(** The line break ["\n"]. *)
Definition nl_char : ascii := ascii_of_nat 10.
Definition nl : string := String nl_char EmptyString.

(** The blank [" "]. *)
Definition sp_char : ascii := ascii_of_nat 32.

(** [len(s)] *)
Definition len (s : string) : Z := Z.of_nat (String.length s).

(** [s.split(sep)] for a separator of one character: the pieces between the
    occurrences of [sep], empty pieces included; never an empty list. *)
Fixpoint split (sep : ascii) (s : string) : list string :=
  match s with
  | EmptyString => [EmptyString]
  | String c s' =>
      if Ascii.eqb c sep then EmptyString :: split sep s'
      else match split sep s' with
           | [] => [String c EmptyString]
           | w :: ws => String c w :: ws
           end
  end.

(** [sep.join(l)] *)
Definition join (sep : string) (l : list string) : string := String.concat sep l.

(** [sub in s] *)
Definition contains (sub s : string) : bool :=
  match String.index 0 sub s with
  | Some _ => true
  | None => false
  end.

(** [str(n)] for an integer. *)
Definition str (n : Z) : string := NilZero.string_of_int (Z.to_int n).

(** A string of [n] copies of a character. *)
Fixpoint replicate (n : nat) (c : ascii) : string :=
  match n with
  | O => EmptyString
  | S n' => String c (replicate n' c)
  end.

End Str.

(** ** [text_split] *)

(** [tempList[-1] += s] *)
Fixpoint append_to_last (tempList : list string) (s : string) : list string :=
  match tempList with
  | [] => []
  | [x] => [x +:+ s]
  | x :: rest => x :: append_to_last rest s
  end.

(** The body of [for i in range(1, len(textList))], over the remaining lines
    [textList[1:]], with the loop's two variables. *)
Fixpoint text_split_loop (sizeLimit : Z) (lines : list string)
    (tempList : list string) (wordCounter : Z) : list string :=
  match lines with
  | [] => tempList
  | line :: lines' =>
      let length := Str.len line in
      if wordCounter + length <? sizeLimit
      then text_split_loop sizeLimit lines'
             (append_to_last tempList (Str.nl +:+ line)) (wordCounter + length)
      else text_split_loop sizeLimit lines' (tempList ++ [line]) length
  end.

Definition text_split (text : string) (sizeLimit : Z) : list string :=
  let textList := Str.split Str.nl_char text in
  match textList with
  | [] => []
  | first :: rest => text_split_loop sizeLimit rest [first] (Str.len first)
  end.

(** The same packing on lists of lines: the chunk being filled is [cur], whose
    lines have [wordCounter] characters in all. *)
Fixpoint pack (sizeLimit : Z) (cur : list string) (wordCounter : Z)
    (lines : list string) : list (list string) :=
  match lines with
  | [] => [cur]
  | line :: lines' =>
      if wordCounter + Str.len line <? sizeLimit
      then pack sizeLimit (cur ++ [line]) (wordCounter + Str.len line) lines'
      else cur :: pack sizeLimit [line] (Str.len line) lines'
  end.

(** The characters of the lines of a chunk, line breaks not counted. *)
Definition line_chars (g : list string) : Z :=
  foldr (fun l n => Str.len l + n) 0 g.

(** Two neighbouring chunks [g], [g'] were cut because the first line of [g']
    did not fit: for every cut, the characters of [g] plus those of that line
    reach [sizeLimit]. *)
Fixpoint cut_when_full (sizeLimit : Z) (gs : list (list string)) : Prop :=
  match gs with
  | g :: ((g' :: _) as rest) =>
      sizeLimit <= line_chars g + Str.len (hd EmptyString g')
      /\ cut_when_full sizeLimit rest
  | _ => True
  end.

(** ** Exceptions, outcomes and the monad of the program *)

(** The exception classes the program can meet.  All of them are subclasses
    of Python's [Exception]. *)
Inductive exn : Type :=
| OperationalError (msg : string)   (* sqlite3.OperationalError *)
| GenerationError (msg : string)    (* raised by the Groq client in [run_llm] *)
| FetchError (msg : string)         (* escapes from [fetch_page_data] *)
| TypeError (msg : string)
| OverflowError (msg : string).     (* an [int] that SQLite cannot hold *)

(** [str(e)] *)
Definition exn_str (e : exn) : string :=
  match e with
  | OperationalError msg | GenerationError msg | FetchError msg | TypeError msg
  | OverflowError msg => msg
  end.

(** How a call ends: it returns a value or it raises. *)
Inductive outcome (A : Type) : Type :=
| Returned (a : A)
| Raised (e : exn).
Arguments Returned {A} a.
Arguments Raised {A} e.

(** A computation over a state [St]; [None] is fuel exhaustion. *)
Definition M (St A : Type) : Type := St -> option (outcome A * St).

Definition ret {St A} (a : A) : M St A := fun st => Some (Returned a, st).

Definition raise {St A} (e : exn) : M St A := fun st => Some (Raised e, st).

Definition out_of_fuel {St A} : M St A := fun _ => None.

Definition bind {St A B} (m : M St A) (k : A -> M St B) : M St B :=
  fun st =>
    match m st with
    | None => None
    | Some (Raised e, st') => Some (Raised e, st')
    | Some (Returned a, st') => k a st'
    end.

Declare Scope prog_scope.
Delimit Scope prog_scope with prog.
Notation "x <- c1 ;; c2" := (bind c1 (fun x => c2))
  (at level 100, c1 at next level, right associativity) : prog_scope.
Notation "c1 ;; c2" := (bind c1 (fun _ => c2))
  (at level 100, right associativity) : prog_scope.
#[local] Open Scope prog_scope.

(** [for x in l: body(x)] *)
Fixpoint for_each {St A} (l : list A) (body : A -> M St unit) : M St unit :=
  match l with
  | [] => ret tt
  | x :: l' => body x ;; for_each l' body
  end.

(** ** Data *)

(** A row of the [articles] table.  The columns of an FTS5 table have no
    type: [depth] holds the integer that [add_url] binds to it. *)
Module Article.
Record t : Type := Make {
  title : string;
  content : string;
  url : string;
  publish_date : string;
  crawl_date : string;
  summary : string;
  depth : Z
}.

(** [UPDATE articles SET depth = ?] on one row. *)
Definition set_depth (d : Z) (a : t) : t :=
  {| title := title a; content := content a; url := url a;
     publish_date := publish_date a; crawl_date := crawl_date a;
     summary := summary a; depth := d |}.
End Article.

(** The dictionary [fetch_page_data] returns. *)
Module Page.
Record t : Type := Make {
  title : string;
  publish_date : string;
  crawl_date : string;
  content : string;
  links : list string;
  url : string
}.
End Page.

(** What a call of [fetch_page_data] does: it returns the dictionary, returns
    [None] (request failed, status other than 200, parser failed), or lets an
    exception escape (the code after the parse is not guarded). *)
Inductive fetch_result : Type :=
| Fetched (data : Page.t)
| NoData
| FetchRaised (msg : string).

(** A record written by [logging]; the [debug] records are left out. *)
Inductive log_record : Type :=
| Info (msg : string)
| Error (msg : string).

(** A row of a search result: [dict(row)] of the [SELECT] of [find_articles]. *)
Module Hit.
Record t : Type := Make {
  rowid : Z;
  title : string;
  content : string;
  summary : string;
  relevance_score : Q
}.
End Hit.

(** ** The [articles] table *)

Module Table.

(** [SELECT count( * ) FROM articles WHERE url=?] *)
Definition count_url (u : string) (db : list Article.t) : Z :=
  Z.of_nat (length (filter (fun a => Article.url a = u) db)).

(** [SELECT ... FROM articles WHERE url=?] followed by [fetchone()]: the
    matching row of least rowid, with its position. *)
Definition first_with_url (u : string) (db : list Article.t)
  : option (nat * Article.t) :=
  list_find (fun a => Article.url a = u) db.

(** An [int] that is bound to a parameter of a statement has to fit a signed
    64-bit SQLite INTEGER; [execute] raises [OverflowError] for one that does
    not, before the statement runs. *)
Definition sqlite_int (n : Z) : bool := (- 2 ^ 63 <=? n) && (n <? 2 ^ 63).

Definition int_too_large : exn :=
  OverflowError "Python int too large to convert to SQLite INTEGER".

(** [UPDATE articles SET depth = ? WHERE rowid = ?] *)
Definition update_depth (i : nat) (d : Z) (db : list Article.t) : list Article.t :=
  alter (Article.set_depth d) i db.

(** [INSERT INTO articles(...) VALUES (...)] *)
Definition insert (a : Article.t) (db : list Article.t) : list Article.t :=
  db ++ [a].

(** [SELECT count( * ) FROM articles WHERE content IS NOT NULL]: the content
    of a row is a string, never NULL. *)
Definition count (db : list Article.t) : Z := Z.of_nat (length db).

(** [LIMIT ?]: a negative limit is no limit. *)
Definition sql_limit {A} (limit : Z) (l : list A) : list A :=
  if limit <? 0 then l else take (Z.to_nat limit) l.

(** [ORDER BY relevance_score ASC], by insertion. *)
Fixpoint insert_by_relevance (h : Hit.t) (l : list Hit.t) : list Hit.t :=
  match l with
  | [] => [h]
  | h' :: l' =>
      if Qle_bool (Hit.relevance_score h) (Hit.relevance_score h')
      then h :: l
      else h' :: insert_by_relevance h l'
  end.

Definition order_by_relevance (l : list Hit.t) : list Hit.t :=
  foldr insert_by_relevance [] l.

End Table.

(** The least depth of a table, 0 at most. *)
Definition min_depth (db : list Article.t) : Z :=
  foldr (fun a m => Z.min (Article.depth a) m) 0 db.

(** Fuel that is enough for a visit with budget [recursive_depth]: the budget
    falls by one at each level and, as shown below, never under the least of
    0, the first budget and the depths stored. *)
Definition crawl_fuel (recursive_depth : Z) (db : list Article.t) : nat :=
  S (Z.to_nat (recursive_depth - Z.min recursive_depth (min_depth db))).

(** The combined score of the docstring of [find_articles]:
    FTS5 rank * timebias_alpha / (days since publication + timebias_alpha). *)
Definition combined_score (relevance timebias_alpha days : Q) : Q :=
  (relevance * timebias_alpha / (days + timebias_alpha))%Q.

(** The prompts. *)
Definition summarize_system : string :=
  "Summarize the input text below including the contents and details. Pay special attention to school, major, graduation requirements and courses. Must include any information related to major, graduation requirements and courses in detail and the school.".

Definition keywords_system : string :=
  "Find the most important keywords for the Text for searching, each keyword should be one to two words long. Separate the keywords with blanks no period; output should include the keywords only without prompt in one line. No plural form, like prerequisites should be prerequisite. If there is course code like CSCI070, must keep it.".

(** ** The program *)

Section Program.

Context {World : Type}.

(** [run_llm(system, user, model, seed)]: the generated text, or the message
    of the exception the client raised; the world after the call. *)
Variable run_llm :
  string -> string -> string -> option Z -> World -> (string + string) * World.

(** [fetch_page_data(url)] *)
Variable fetch_page_data : string -> World -> fetch_result * World.

(** The FTS5 index: whether it accepts a query (a rejected one makes
    [cursor.execute] raise [OperationalError]), whether a row matches an
    accepted query, and the [bm25] score of a row in a table. *)
Variable fts5_accepts : string -> bool.
Variable fts5_match : string -> Article.t -> bool.
Variable bm25 : list Article.t -> string -> Article.t -> Q.

(** The state of a run: the table, the world of the collaborators and the
    records logged so far, oldest first. *)
Record state : Type := State {
  db : list Article.t;
  world : World;
  log : list log_record
}.

Definition set_db (f : list Article.t -> list Article.t) : M state unit :=
  fun st => Some (Returned tt, {| db := f (db st); world := world st; log := log st |}).

Definition get_db : M state (list Article.t) :=
  fun st => Some (Returned (db st), st).

Definition logging (r : log_record) : M state unit :=
  fun st => Some (Returned tt, {| db := db st; world := world st; log := log st ++ [r] |}).

Definition call_llm (system user model : string) (seed : option Z) : M state string :=
  fun st =>
    let '(r, w) := run_llm system user model seed (world st) in
    let st' := {| db := db st; world := w; log := log st |} in
    match r with
    | inl text => Some (Returned text, st')
    | inr msg => Some (Raised (GenerationError msg), st')
    end.

(** An exception that is a failure of the generation service: the error that
    some call of [run_llm] raised. *)
Definition generation_failure (e : exn) : Prop :=
  exists msg system user model seed w w',
    run_llm system user model seed w = (inr msg, w') /\ e = GenerationError msg.

(** The call of [fetch_page_data]: [Some data], or [None]. *)
Definition call_fetch (url : string) : M state (option Page.t) :=
  fun st =>
    let '(r, w) := fetch_page_data url (world st) in
    let st' := {| db := db st; world := w; log := log st |} in
    match r with
    | Fetched data => Some (Returned (Some data), st')
    | NoData => Some (Returned None, st')
    | FetchRaised msg => Some (Raised (FetchError msg), st')
    end.

(** [try: body except: handler], the bare [except] that traps everything. *)
Definition try_except {A} (body : M state A) (handler : M state A) : M state A :=
  fun st =>
    match body st with
    | Some (Raised _, st') => handler st'
    | r => r
    end.

Definition summarize_text (text model : string) (seed : option Z) : M state string :=
  call_llm summarize_system text model seed.

(** The [while True] of [extract_keywords]. *)
Fixpoint extract_keywords_loop (fuel : nat) (text model key : string) : M state string :=
  match fuel with
  | O => out_of_fuel
  | S fuel' =>
      let listing := Str.split Str.sp_char key in
      if Z.of_nat (length listing) <? 10
      then ret key
      else
        key' <- call_llm keywords_system ("Text: " +:+ text) model None ;;
        extract_keywords_loop fuel' text model key'
  end.

Definition extract_keywords (fuel : nat) (text model : string) (seed : option Z)
  : M state string :=
  key <- call_llm keywords_system ("Text: " +:+ text) model seed ;;
  match seed with
  | Some _ => ret key
  | None =>
      key <- extract_keywords_loop fuel text model key ;;
      logging (Info ("get keywords: " +:+ key)) ;;
      ret key
  end.

(** The [SELECT] of [find_articles] on an accepted query. *)
Definition select_matching (query : string) (limit : Z) (rows : list Article.t)
  : list Hit.t :=
  Table.sql_limit limit
    (Table.order_by_relevance
       (omap (fun '(i, a) =>
                if fts5_match query a
                then Some {| Hit.rowid := Z.of_nat (S i);
                             Hit.title := Article.title a;
                             Hit.content := Article.content a;
                             Hit.summary := Article.summary a;
                             Hit.relevance_score := bm25 rows query a |}
                else None)
             (imap pair rows))).

(** [cursor.execute(sql, (query, limit))] followed by [cursor.fetchall()]:
    the parameters are bound first, then the index reads the query. *)
Definition cursor_execute (query : string) (limit : Z) : M state (list Hit.t) :=
  if Table.sqlite_int limit
  then
    if fts5_accepts query
    then rows <- get_db ;; ret (select_matching query limit rows)
    else raise (OperationalError "fts5: syntax error")
  else raise Table.int_too_large.

Fixpoint find_articles (fuel : nat) (query : string) (limit : Z) (timebias_alpha : Q)
    (keywords_text : option string) (model : string) : M state (list Hit.t) :=
  match fuel with
  | O => out_of_fuel
  | S fuel' =>
      fun st =>
        match cursor_execute query limit st with
        | Some (Raised (OperationalError _), st') =>
            match keywords_text with
            | Some text =>
                (query' <- extract_keywords fuel' text model None ;;
                 find_articles fuel' query' limit timebias_alpha keywords_text model) st'
            | None =>
                find_articles fuel' query limit timebias_alpha keywords_text model st'
            end
        | r => r
        end
  end.

(** The decorator: the call returns [None] whatever [func] returns, and an
    exception of [func] is logged in place of being raised. *)
Definition _catch_errors (func : M state unit) : M state unit :=
  fun st =>
    match func st with
    | Some (Raised e, st') => logging (Error (exn_str e)) st'
    | r => r
    end.

(** [for link in data['links']: self.add_url(link, model, recursive_depth - 1)],
    where [self_add_url] is the decorated method. *)
Definition follow_links (self_add_url : string -> string -> Z -> bool -> M state unit)
    (links : list string) (model : string) (recursive_depth : Z) : M state unit :=
  for_each links (fun link => self_add_url link model (recursive_depth - 1) false).

(** The branch of [add_url] on a url that is stored already. *)
Definition add_url_dupe (self_add_url : string -> string -> Z -> bool -> M state unit)
    (url model : string) (recursive_depth : Z) : M state unit :=
  logging (Info ("With depth " +:+ Str.str recursive_depth
                 +:+ " duplicate detected, skip " +:+ url)) ;;
  rows <- get_db ;;
  match Table.first_with_url url rows with
  | None => raise (TypeError "'NoneType' object is not subscriptable")
  | Some (_, depth) =>
      if Article.depth depth <? recursive_depth
      then
        data <- call_fetch url ;;
        match data with
        | None => ret tt
        | Some data =>
            follow_links self_add_url (Page.links data) model recursive_depth ;;
            rows <- get_db ;;
            match Table.first_with_url url rows with
            | None => raise (TypeError "'NoneType' object is not subscriptable")
            | Some (record, _) =>
                if Table.sqlite_int recursive_depth
                then set_db (Table.update_depth record recursive_depth)
                else raise Table.int_too_large
            end
        end
      else ret tt
  end.

(** The branch of [add_url] that fetches a page to store it. *)
Definition add_url_store (self_add_url : string -> string -> Z -> bool -> M state unit)
    (url model : string) (recursive_depth : Z) : M state unit :=
  data <- call_fetch url ;;
  match data with
  | None => ret tt
  | Some data =>
      logging (Info ("With depth " +:+ Str.str recursive_depth
                     +:+ " inserting into database " +:+ url)) ;;
      if 30000 <? Str.len (Page.content data)
      then
        logging (Info ("Page to long for summary: " +:+ url)) ;;
        if 0 <? recursive_depth
        then follow_links self_add_url (Page.links data) model recursive_depth
        else ret tt
      else
        summary <- try_except
                     (s <- summarize_text (Page.content data) model None ;; ret (Some s))
                     (logging (Info ("Fail to summarize for " +:+ url)) ;; ret None) ;;
        match summary with
        | None =>
            if 0 <? recursive_depth
            then follow_links self_add_url (Page.links data) model recursive_depth
            else ret tt
        | Some summary =>
            (if Table.sqlite_int recursive_depth
             then set_db (Table.insert
                            {| Article.title := Page.title data;
                               Article.content := Page.content data;
                               Article.url := url;
                               Article.publish_date := Page.publish_date data;
                               Article.crawl_date := Page.crawl_date data;
                               Article.summary := summary;
                               Article.depth := recursive_depth |})
             else raise Table.int_too_large) ;;
            logging (Info "inserting success") ;;
            if 0 <? recursive_depth
            then follow_links self_add_url (Page.links data) model recursive_depth
            else ret tt
        end
  end.

(** The undecorated body of [add_url]. *)
Definition add_url_body (self_add_url : string -> string -> Z -> bool -> M state unit)
    (url model : string) (recursive_depth : Z) (allow_dupes : bool) : M state unit :=
  if negb (Str.contains "hmc.edu" url)
  then logging (Info ("outside url, skipped:" +:+ url))
  else
    rows <- get_db ;;
    if negb allow_dupes && (0 <? Table.count_url url rows)
    then add_url_dupe self_add_url url model recursive_depth
    else add_url_store self_add_url url model recursive_depth.

(** [ArticleDB.add_url], decorated with [_catch_errors]; the calls it makes
    on the links are calls of the decorated method too. *)
Fixpoint add_url (fuel : nat) (url model : string) (recursive_depth : Z)
    (allow_dupes : bool) : M state unit :=
  match fuel with
  | O => out_of_fuel
  | S fuel' =>
      _catch_errors (add_url_body (add_url fuel') url model recursive_depth allow_dupes)
  end.

(** One call of [add_url] by a client of the class. *)
Record visit : Type := Visit {
  visit_url : string;
  visit_model : string;
  visit_depth : Z;
  visit_allow_dupes : bool
}.

(** A sequence of calls of [add_url], one after the other. *)
Definition crawl (fuel : nat) (visits : list visit) : M state unit :=
  for_each visits
    (fun v => add_url fuel (visit_url v) (visit_model v) (visit_depth v)
                (visit_allow_dupes v)).

(** [ArticleDB.__len__] *)
Definition ArticleDB_len : M state Z :=
  rows <- get_db ;; ret (Table.count rows).

End Program.

(** ** [text_split] under a limit that is not an integer

    [rag] passes [len(sources)/2], a float, down to [recursive_summary] and
    [text_split]; such a limit is a rational here (a float [n/2] is exact).
    The counters stay integers, and are compared with the limit as Python
    compares an [int] with a [float]. *)

(** [k < q] and [k > q] for an integer [k] and a limit [q]. *)
Definition int_lt (k : Z) (q : Q) : bool := negb (Qle_bool q (inject_Z k)).
Definition int_gt (k : Z) (q : Q) : bool := negb (Qle_bool (inject_Z k) q).

Fixpoint text_split_loop_q (sizeLimit : Q) (lines : list string)
    (tempList : list string) (wordCounter : Z) : list string :=
  match lines with
  | [] => tempList
  | line :: lines' =>
      let length := Str.len line in
      if int_lt (wordCounter + length) sizeLimit
      then text_split_loop_q sizeLimit lines'
             (append_to_last tempList (Str.nl +:+ line)) (wordCounter + length)
      else text_split_loop_q sizeLimit lines' (tempList ++ [line]) length
  end.

Definition text_split_q (text : string) (sizeLimit : Q) : list string :=
  let textList := Str.split Str.nl_char text in
  match textList with
  | [] => []
  | first :: rest => text_split_loop_q sizeLimit rest [first] (Str.len first)
  end.

(** ** The compressor and the orchestrator *)

Definition recursive_summary_system : string :=
  "Summarize the input text below. Output in English.".

Definition rag_system : string :=
  "You are a college adviser. You will be given several articles and a question. Answer the question based on the articles.".

Section Orchestrator.

Context {World : Type}.
Variable run_llm :
  string -> string -> string -> option Z -> World -> (string + string) * World.
Variable fts5_accepts : string -> bool.
Variable fts5_match : string -> Article.t -> bool.
Variable bm25 : list Article.t -> string -> Article.t -> Q.

(** [for paragraph in textList: newText += run_llm(system, paragraph) + "\n\n"] *)
Fixpoint summarize_paragraphs (textList : list string) (model newText : string)
  : M (@state World) string :=
  match textList with
  | [] => ret newText
  | paragraph :: textList' =>
      summary <- call_llm run_llm recursive_summary_system paragraph model None ;;
      summarize_paragraphs textList' model (newText +:+ (summary +:+ Str.nl +:+ Str.nl))
  end.

Fixpoint recursive_summary (fuel : nat) (text : string) (sizeLimit : Q) (model : string)
  : M (@state World) string :=
  match fuel with
  | O => out_of_fuel
  | S fuel' =>
      if int_gt (Str.len text) sizeLimit
      then
        let textList := text_split_q text sizeLimit in
        newText <- summarize_paragraphs textList model "" ;;
        recursive_summary fuel' newText sizeLimit model
      else ret text
  end.

(** The [for i in range(3)] of [rag], with the attempts that are left; the
    loop leaves with the articles of the last search. *)
Fixpoint rag_search (fuel attempts : nat) (keywords_text model : string)
    (articles : list Hit.t) : M (@state World) (list Hit.t) :=
  match attempts with
  | O => ret articles
  | S attempts' =>
      keywords <- extract_keywords run_llm fuel keywords_text model None ;;
      articles <- find_articles run_llm fts5_accepts fts5_match bm25 fuel keywords 5 1
                    (Some keywords_text) model ;;
      if 0 <? Z.of_nat (length articles)
      then ret articles
      else rag_search fuel attempts' keywords_text model articles
  end.

(** [for i in range(len(articles)): sources += "ARTICLE" + str(i) + ...],
    from index [i] on. *)
Fixpoint rag_sources (articles : list Hit.t) (i : Z) (sources : string) : string :=
  match articles with
  | [] => sources
  | article :: articles' =>
      rag_sources articles' (i + 1)
        (sources +:+ ("ARTICLE" +:+ Str.str i +:+ " content: "
                      +:+ Hit.content article +:+ Str.nl))
  end.

(** The [while True] of [rag]: the [try] is the call that answers; its bare
    [except] halves the sources and goes round again. *)
Fixpoint rag_answer (fuel : nat) (text model sources : string) : M (@state World) string :=
  match fuel with
  | O => out_of_fuel
  | S fuel' =>
      try_except
        (let user := sources +:+ "QUESTION: " +:+ text in
         logging (Info ("rag.SYSTEM: " +:+ rag_system)) ;;
         logging (Info ("rag.USER" +:+ user)) ;;
         call_llm run_llm rag_system user model None)
        (sources' <- recursive_summary fuel' sources (Str.len sources # 2) model ;;
         rag_answer fuel' text model sources')
  end.

Definition rag (fuel : nat) (text : string) (keywords_text : option string)
    (model : string) : M (@state World) string :=
  let keywords_text := match keywords_text with None => text | Some k => k end in
  articles <- rag_search fuel 3 keywords_text model [] ;;
  rag_answer fuel text model (rag_sources articles 0 "").

End Orchestrator.

(** ** The evaluation's comparison, [evaluate.py] *)

(** [all(x == y for x, y in zip(answer, prediction))]: the characters are
    compared pairwise, as far as the shorter of the two strings goes. *)
Fixpoint labels_agree (answer prediction : string) : bool :=
  match answer, prediction with
  | String x answer', String y prediction' =>
      Ascii.eqb x y && labels_agree answer' prediction'
  | _, _ => true
  end.

(** ** How a table may change *)

(** A row after some visits: the same row but for its depth, which is the
    same or was raised, to [bound] at most. *)
Definition row_upgraded (bound : Z) (a a' : Article.t) : Prop :=
  a' = Article.set_depth (Article.depth a') a
  /\ (Article.depth a' = Article.depth a
      \/ Article.depth a < Article.depth a' <= bound).

(** A table after some visits: its rows are all there, in place, upgraded
    within [bound]; new rows come after them. *)
Definition rows_upgraded (bound : Z) (rows rows' : list Article.t) : Prop :=
  exists kept added, rows' = kept ++ added /\ Forall2 (row_upgraded bound) rows kept.


(** ** The allowed domain, as the specification has it

    The specification speaks of a url outside the allowed domain.  The host
    of a url is what stands between the scheme and the first of [/], [?],
    [#] and [:]; a url is in a domain when its host is the domain or is
    under it.  The program has no such function: its gate is the test
    ["hmc.edu" in url]. *)

Definition after_scheme (url : string) : string :=
  match String.index 0 "://" url with
  | Some n => String.substring (n + 3) (String.length url - (n + 3)) url
  | None => url
  end.

Fixpoint until_delimiter (s : string) : string :=
  match s with
  | EmptyString => EmptyString
  | String c s' =>
      if Ascii.eqb c "/" || Ascii.eqb c "?" || Ascii.eqb c "#" || Ascii.eqb c ":"
      then EmptyString
      else String c (until_delimiter s')
  end.

Definition url_host (url : string) : string := until_delimiter (after_scheme url).

Definition ends_with (suffix s : string) : bool :=
  (String.length suffix <=? String.length s)%nat
  && String.eqb
       (String.substring (String.length s - String.length suffix)
          (String.length suffix) s)
       suffix.

Definition in_allowed_domain (domain url : string) : bool :=
  String.eqb (url_host url) domain || ends_with ("." +:+ domain) (url_host url).

(** ** A small world to run the program in

    A site of a few pages under [hmc.edu], one page of another site whose
    url has the text [hmc.edu] in its query, a generation service that
    answers from the number of calls made so far, and the FTS5 index on
    queries of plain words.  The world counts the calls of each
    collaborator. *)

Module Demo.

Record World : Type := Calls { fetches : nat; generations : nat }.

Definition fetched (w : World) : World :=
  {| fetches := S (fetches w); generations := generations w |}.

Definition generated (w : World) : World :=
  {| fetches := fetches w; generations := S (generations w) |}.

Definition page (url content : string) (links : list string) : Page.t :=
  {| Page.title := "Title"; Page.publish_date := "Unknown";
     Page.crawl_date := "2024-09-01 12:00:00"; Page.content := content;
     Page.links := links; Page.url := url |}.

Definition url_a : string := "https://www.hmc.edu/a".
Definition url_b : string := "https://www.hmc.edu/b".
Definition url_big : string := "https://www.hmc.edu/big".
Definition url_edge : string := "https://www.hmc.edu/edge".
Definition url_mute : string := "https://www.hmc.edu/mute".
Definition url_broken : string := "https://www.hmc.edu/broken".
Definition url_out : string := "https://example.com/x".
Definition url_mirror : string := "https://example.com/?q=hmc.edu".

Definition page_a : Page.t := page url_a "Courses of the major" [url_b; url_out].
Definition page_b : Page.t := page url_b "Graduation requirements" [url_a].
Definition page_big : Page.t :=
  page url_big (Str.replicate (Z.to_nat 30001) "x"%char) [url_b].
Definition page_edge : Page.t :=
  page url_edge (Str.replicate (Z.to_nat 30000) "x"%char) [].
Definition page_mute : Page.t := page url_mute "unspeakable" [url_b].
Definition page_mirror : Page.t := page url_mirror "A page of another site" [].

Definition fetch_page_data (url : string) (w : World) : fetch_result * World :=
  (if String.eqb url url_a then Fetched page_a
   else if String.eqb url url_b then Fetched page_b
   else if String.eqb url url_big then Fetched page_big
   else if String.eqb url url_edge then Fetched page_edge
   else if String.eqb url url_mute then Fetched page_mute
   else if String.eqb url url_mirror then Fetched page_mirror
   else if String.eqb url url_broken then FetchRaised "Invalid IPv6 URL"
   else NoData,
   fetched w).

Definition twelve_keywords : string := "a b c d e f g h i j k l".

Definition run_llm (system user model : string) (seed : option Z) (w : World)
  : (string + string) * World :=
  (if String.eqb user "unspeakable" then inr "rate limit reached"%string
   else if String.eqb user "Text: silence" then inr "connection error"%string
   else if String.eqb system summarize_system then inl "summary"%string
   else match seed with
        | Some _ => inl twelve_keywords
        | None =>
            if Nat.eqb (generations w) 0 then inl twelve_keywords
            else inl "biology major"%string
        end,
   generated w).

(** *** The index

    The FTS5 index of the [articles] table, with its default tokenizer, on
    ASCII text and for queries of plain words.  A token is a maximal run of
    letters and digits, taken in lower case; the seven columns of a row are
    all indexed, the depth as the text of the integer. *)

Definition is_alnum (c : ascii) : bool :=
  let n := nat_of_ascii c in
  ((48 <=? n) && (n <=? 57) || (65 <=? n) && (n <=? 90)
   || (97 <=? n) && (n <=? 122))%nat.

Definition to_lower (c : ascii) : ascii :=
  let n := nat_of_ascii c in
  if ((65 <=? n) && (n <=? 90))%nat then ascii_of_nat (n + 32) else c.

Definition close_word (word : string) : list string :=
  match word with
  | EmptyString => []
  | _ => [word]
  end.

Fixpoint tokens_from (word s : string) : list string :=
  match s with
  | EmptyString => close_word word
  | String c s' =>
      if is_alnum c
      then tokens_from (word +:+ String (to_lower c) EmptyString) s'
      else close_word word ++ tokens_from EmptyString s'
  end.

Definition tokenize (s : string) : list string := tokens_from EmptyString s.

Definition row_tokens (a : Article.t) : list string :=
  concat (map tokenize
            [Article.title a; Article.content a; Article.url a;
             Article.publish_date a; Article.crawl_date a; Article.summary a;
             Str.str (Article.depth a)]).

(** How often a token occurs in a row. *)
Definition occurrences (t : string) (a : Article.t) : nat :=
  length (filter (fun w => w = t) (row_tokens a)).

(** A query of plain words: letters, digits and blanks, with a word in it,
    and no word that is one of the operators [AND], [OR], [NOT].  FTS5
    rejects a bare operator, an empty query and punctuation such as [?] with
    a syntax error; its queries with operators, quotes or column filters are
    outside this index, which takes them as rejected too. *)
Definition fts5_accepts (query : string) : bool :=
  forallb (fun c => is_alnum c || Ascii.eqb c Str.sp_char)
    (list_ascii_of_string query)
  && negb (forallb (String.eqb EmptyString) (Str.split Str.sp_char query))
  && forallb (fun w => negb (String.eqb w "AND" || String.eqb w "OR"
                             || String.eqb w "NOT"))
       (Str.split Str.sp_char query).

(** The words of a query are joined by an implicit AND: a row matches when
    every word of the query is a token of the row. *)
Definition fts5_match (query : string) (a : Article.t) : bool :=
  forallb (fun t => (0 <? occurrences t a)%nat) (tokenize query).

(** The inverse document frequency of a term that is in [n] of [N] rows:
    FTS5 takes [log((N - n + 0.5) / (n + 0.5))] and, when that is not
    positive, which is when [N <= 2 n], one millionth in its place.  Where it
    is positive the logarithm, [log x], is replaced here by the rational
    [2 (x - 1) / (x + 1)] below it.  A term of a row of a table of one or two
    rows has [N <= 2 n]. *)
Definition idf (N n : nat) : Q :=
  if (N <=? 2 * n)%nat then 1 # 1000000
  else (inject_Z (2 * Z.of_nat N - 4 * Z.of_nat n) / inject_Z (Z.of_nat N + 1))%Q.

Definition k1 : Q := 12 # 10.
Definition b : Q := 3 # 4.

(** The part of one term in the score of a row [a] of the table [rows]. *)
Definition term_score (rows : list Article.t) (t : string) (a : Article.t) : Q :=
  let nRow := length rows in
  let nHit := length (filter (fun r => (0 < occurrences t r)%nat) rows) in
  let freq := inject_Z (Z.of_nat (occurrences t a)) in
  let D := inject_Z (Z.of_nat (length (row_tokens a))) in
  let nToken := Z.of_nat (length (concat (map row_tokens rows))) in
  let avgdl := (inject_Z nToken / inject_Z (Z.of_nat nRow))%Q in
  (idf nRow nHit * (freq * (k1 + 1) / (freq + k1 * (1 - b + b * D / avgdl))))%Q.

(** [bm25(articles)], with the weight 1 of every column: minus the sum of the
    parts of the words of the query, as a fraction in lowest terms. *)
Definition bm25 (rows : list Article.t) (query : string) (a : Article.t) : Q :=
  Qred (- foldr (fun t score => term_score rows t a + score) 0 (tokenize query))%Q.

(** Two articles on biology of nearly the same lexical score, one published
    on 2021-12-06 and one on 2024-08-31, 999 days later. *)
Definition old_article : Article.t :=
  {| Article.title := "Biology"; Article.content := "biology major";
     Article.url := "https://www.hmc.edu/old"; Article.publish_date := "2021-12-06";
     Article.crawl_date := "2024-09-01 12:00:00"; Article.summary := "old";
     Article.depth := 0 |}.

Definition recent_article : Article.t :=
  {| Article.title := "Biology"; Article.content := "biology major today";
     Article.url := "https://www.hmc.edu/new"; Article.publish_date := "2024-08-31";
     Article.crawl_date := "2024-09-01 12:00:00"; Article.summary := "recent";
     Article.depth := 0 |}.

Definition no_calls : World := {| fetches := 0; generations := 0 |}.

Definition empty : state := {| db := []; world := no_calls; log := [] |}.

Definition library : state :=
  {| db := [old_article; recent_article]; world := no_calls; log := [] |}.

Definition add_url := add_url run_llm fetch_page_data.

Definition find_articles := find_articles run_llm fts5_accepts fts5_match bm25.

Definition extract_keywords := extract_keywords run_llm.

Definition rag := rag run_llm fts5_accepts fts5_match bm25.

Definition recursive_summary := recursive_summary run_llm.

(** The row of [url_a] after [add_url(url_a, "m", 2)]. *)
Definition row_a : Article.t :=
  {| Article.title := "Title"; Article.content := "Courses of the major";
     Article.url := url_a; Article.publish_date := "Unknown";
     Article.crawl_date := "2024-09-01 12:00:00"; Article.summary := "summary";
     Article.depth := 2 |}.

(** The state after [add_url(url_a, "m", 2)] on an empty table. *)
Definition crawled : state :=
  match add_url 5 url_a "m" 2 false empty with
  | Some (_, st) => st
  | None => empty
  end.

End Demo.

(** * Properties *)

(** ** Strings and [text_split] *)

Section TextSplit.

Implicit Types (s t : string) (l lines cur g : list string) (gs : list (list string)).

Lemma append_String (c : ascii) s t : String c s +:+ t = String c (s +:+ t).
Proof. reflexivity. Qed.

Lemma append_empty_l s : EmptyString +:+ s = s.
Proof. reflexivity. Qed.

Lemma append_assoc s t u : (s +:+ t) +:+ u = s +:+ t +:+ u.
Proof.
  induction s as [|c s IH]; [done |]. by rewrite !append_String, IH.
Qed.

Lemma len_append s t : Str.len (s +:+ t) = Str.len s + Str.len t.
Proof.
  unfold Str.len. induction s as [|c s IH]; [done |].
  rewrite append_String. simpl String.length. lia.
Qed.

Lemma len_nonneg s : 0 <= Str.len s.
Proof. unfold Str.len. lia. Qed.

Lemma split_not_nil sep s : Str.split sep s <> [].
Proof.
  destruct s as [|c s]; simpl; [done |].
  destruct (Ascii.eqb c sep); [done |]. by destruct (Str.split sep s).
Qed.

Lemma join_cons sep s l :
  l <> [] -> Str.join sep (s :: l) = s +:+ sep +:+ Str.join sep l.
Proof. by destruct l. Qed.

Lemma join_split sep s :
  Str.join (String sep EmptyString) (Str.split sep s) = s.
Proof.
  induction s as [|c s IH]; simpl; [done |].
  destruct (Ascii.eqb_spec c sep) as [->|Hne].
  - rewrite join_cons by apply split_not_nil.
    by rewrite IH, append_empty_l, append_String, append_empty_l.
  - pose proof (split_not_nil sep s) as Hnil.
    destruct (Str.split sep s) as [|w ws]; [done |].
    destruct ws as [|w' ws]; [by rewrite <- IH |].
    rewrite !join_cons in * by done. by rewrite append_String, IH.
Qed.

Lemma join_app sep l1 l2 :
  l1 <> [] -> l2 <> [] ->
  Str.join sep (l1 ++ l2) = Str.join sep l1 +:+ sep +:+ Str.join sep l2.
Proof.
  intros H1 H2. induction l1 as [|x l1 IH]; [done |].
  destruct l1 as [|y l1].
  - simpl app. by rewrite join_cons.
  - change ((x :: y :: l1) ++ l2) with (x :: ((y :: l1) ++ l2)).
    rewrite !join_cons by done. rewrite IH by done. by rewrite !append_assoc.
Qed.

Lemma join_concat sep gs :
  Forall (fun g => g <> []) gs ->
  Str.join sep (map (Str.join sep) gs) = Str.join sep (concat gs).
Proof.
  induction 1 as [|g gs Hg Hgs IH]; [done |].
  destruct gs as [|g' gs].
  - simpl. by rewrite app_nil_r.
  - change (map (Str.join sep) (g :: g' :: gs))
      with (Str.join sep g :: map (Str.join sep) (g' :: gs)).
    rewrite join_cons by done. rewrite IH.
    change (concat (g :: g' :: gs)) with (g ++ concat (g' :: gs)).
    rewrite join_app; [done | done |].
    inversion Hgs; subst. simpl. by destruct g'.
Qed.

Lemma len_join_nl g :
  g <> [] -> Str.len (Str.join Str.nl g) = line_chars g + Z.of_nat (length g) - 1.
Proof.
  induction g as [|x g IH]; [done | intros _].
  destruct g as [|y g].
  - simpl. lia.
  - rewrite join_cons by done. rewrite !len_append, IH by done.
    change (Str.len Str.nl) with 1. simpl line_chars. simpl length. lia.
Qed.

Lemma line_chars_app g1 g2 : line_chars (g1 ++ g2) = line_chars g1 + line_chars g2.
Proof. induction g1 as [|x g1 IH]; simpl; [done |]. unfold line_chars in *. lia. Qed.

Lemma line_chars_elem s g : s ∈ g -> Str.len s <= line_chars g.
Proof.
  induction 1 as [x g|x y g Hin IH]; simpl.
  - assert (0 <= line_chars g); [|unfold line_chars in *; lia].
    clear. induction g as [|z g IH]; simpl; [done |]. pose proof (len_nonneg z). lia.
  - pose proof (len_nonneg y). unfold line_chars in *. lia.
Qed.

Lemma append_to_last_snoc pre x s : append_to_last (pre ++ [x]) s = pre ++ [x +:+ s].
Proof.
  induction pre as [|y pre IH]; [done |].
  simpl. rewrite IH. by destruct pre.
Qed.

(** The loop of [text_split] is the packing of lines, chunk by chunk. *)
Lemma text_split_loop_pack sizeLimit lines pre cur wordCounter :
  cur <> [] ->
  text_split_loop sizeLimit lines (pre ++ [Str.join Str.nl cur]) wordCounter
  = pre ++ map (Str.join Str.nl) (pack sizeLimit cur wordCounter lines).
Proof.
  revert pre cur wordCounter.
  induction lines as [|line lines IH]; intros pre cur wc Hcur; [done |].
  simpl. destruct (wc + Str.len line <? sizeLimit).
  - rewrite append_to_last_snoc.
    replace (Str.join Str.nl cur +:+ Str.nl +:+ line)
      with (Str.join Str.nl (cur ++ [line])) by (by rewrite join_app).
    apply IH. by destruct cur.
  - change [line] with [Str.join Str.nl [line]] at 1.
    rewrite (IH (pre ++ [Str.join Str.nl cur]) [line]) by done.
    by rewrite <- app_assoc.
Qed.

Lemma pack_concat sizeLimit lines cur wordCounter :
  concat (pack sizeLimit cur wordCounter lines) = cur ++ lines.
Proof.
  revert cur wordCounter. induction lines as [|line lines IH]; intros cur wc; simpl.
  - by rewrite app_nil_r.
  - destruct (wc + Str.len line <? sizeLimit); simpl.
    + by rewrite IH, <- app_assoc.
    + by rewrite IH.
Qed.

Lemma pack_head sizeLimit lines cur wordCounter :
  exists tail rest, pack sizeLimit cur wordCounter lines = (cur ++ tail) :: rest.
Proof.
  revert cur wordCounter. induction lines as [|line lines IH]; intros cur wc; simpl.
  - exists [], []. by rewrite app_nil_r.
  - destruct (wc + Str.len line <? sizeLimit).
    + destruct (IH (cur ++ [line]) (wc + Str.len line)) as (tail & rest & ->).
      exists (line :: tail), rest. by rewrite <- app_assoc.
    + exists [], (pack sizeLimit [line] (Str.len line) lines). by rewrite app_nil_r.
Qed.

Lemma pack_not_nil sizeLimit lines cur wordCounter :
  cur <> [] -> Forall (fun g => g <> []) (pack sizeLimit cur wordCounter lines).
Proof.
  revert cur wordCounter. induction lines as [|line lines IH]; intros cur wc Hcur; simpl.
  - by constructor.
  - destruct (wc + Str.len line <? sizeLimit).
    + apply IH. by destruct cur.
    + constructor; [done |]. by apply IH.
Qed.

Lemma pack_under_limit sizeLimit lines cur :
  ((2 <= length cur)%nat -> line_chars cur < sizeLimit) ->
  Forall (fun g => (2 <= length g)%nat -> line_chars g < sizeLimit)
    (pack sizeLimit cur (line_chars cur) lines).
Proof.
  revert cur. induction lines as [|line lines IH]; intros cur Hcur; simpl.
  - by constructor.
  - destruct (Z.ltb_spec (line_chars cur + Str.len line) sizeLimit) as [Hlt|Hge].
    + replace (line_chars cur + Str.len line) with (line_chars (cur ++ [line]))
        by (rewrite line_chars_app; simpl; lia).
      apply IH. intros _. rewrite line_chars_app. simpl. lia.
    + constructor; [done |].
      replace (Str.len line) with (line_chars [line]) at 1 by (simpl; lia).
      apply IH. simpl. lia.
Qed.

Lemma pack_cut_when_full sizeLimit lines cur :
  cur <> [] -> cut_when_full sizeLimit (pack sizeLimit cur (line_chars cur) lines).
Proof.
  revert cur. induction lines as [|line lines IH]; intros cur Hcur; simpl; [done |].
  destruct (Z.ltb_spec (line_chars cur + Str.len line) sizeLimit) as [Hlt|Hge].
  - replace (line_chars cur + Str.len line) with (line_chars (cur ++ [line]))
      by (rewrite line_chars_app; simpl; lia).
    apply IH. by destruct cur.
  - pose proof (IH [line]) as IH'. simpl line_chars in IH'.
    replace (Str.len line + 0) with (Str.len line) in IH' by lia.
    destruct (pack_head sizeLimit lines [line] (Str.len line)) as (tail & rest & Hp).
    rewrite Hp in *. simpl. split; [done | by apply IH'].
Qed.

End TextSplit.

(** C10: joining the chunks of [text_split(text, sizeLimit)] with a line break
    gives back [text], whatever the text and the limit: nothing is lost,
    nothing is repeated and the lines keep their order. *)
Theorem text_split_join (text : string) (sizeLimit : Z) :
  Str.join Str.nl (text_split text sizeLimit) = text.
Proof.
  unfold text_split.
  pose proof (join_split Str.nl_char text) as Hjs.
  destruct (Str.split Str.nl_char text) as [|first rest]; [done |].
  rewrite (text_split_loop_pack sizeLimit rest [] [first]) by done.
  simpl app. rewrite join_concat by (by apply pack_not_nil).
  by rewrite pack_concat.
Qed.

(** C6, as the code has it: the chunks of [text_split] are runs of whole
    lines of the text, in order (each chunk is its lines joined by line
    breaks); the lines of a chunk of two lines or more have fewer than
    [sizeLimit] characters in all, the line breaks between them not counted,
    so that the chunk itself has that many characters plus one for each line
    break; a chunk is closed only when the characters of its lines plus those
    of the next line reach [sizeLimit]; and a line of [sizeLimit] characters
    or more is a chunk of its own. *)
Theorem text_split_packs_lines (text : string) (sizeLimit : Z) :
  exists gs : list (list string),
    text_split text sizeLimit = map (Str.join Str.nl) gs
    /\ concat gs = Str.split Str.nl_char text
    /\ Forall (fun g => g <> []
                 /\ Str.len (Str.join Str.nl g) = line_chars g + Z.of_nat (length g) - 1
                 /\ ((2 <= length g)%nat -> line_chars g < sizeLimit)
                 /\ (forall line, line ∈ g -> sizeLimit <= Str.len line -> g = [line])) gs
    /\ cut_when_full sizeLimit gs.
Proof.
  unfold text_split.
  pose proof (split_not_nil Str.nl_char text) as Hnil.
  destruct (Str.split Str.nl_char text) as [|first rest]; [done |].
  exists (pack sizeLimit [first] (Str.len first) rest).
  split; [apply (text_split_loop_pack sizeLimit rest [] [first]); done |].
  split; [apply pack_concat |].
  assert (Hwc : Str.len first = line_chars [first]) by (simpl; lia).
  split; [| rewrite Hwc; by apply pack_cut_when_full].
  pose proof (pack_not_nil sizeLimit rest [first] (Str.len first)) as Hne.
  pose proof (pack_under_limit sizeLimit rest [first]) as Hlim.
  rewrite <- Hwc in Hlim.
  eapply Forall_impl;
    [apply Forall_and; split; [apply Hne; done | apply Hlim; simpl; lia] |].
  intros g [Hg Hsum]. simpl in Hg, Hsum.
  split; [done |]. split; [by apply len_join_nl |]. split; [done |].
  intros line Hin Hlong.
  destruct g as [|x [|y g]]; [done | |].
  - apply list_elem_of_singleton in Hin. by subst.
  - pose proof (line_chars_elem _ _ Hin). simpl length in Hsum. lia.
Qed.

(** C6, as the spec has it, fails: on the text of the docstring of
    [text_split], with its limit of 7, no line is as long as the limit and
    yet the first chunk has 7 characters, which is not under 7. *)
Lemma text_split_chunk_reaches_limit :
  let text := "AAB" +:+ Str.nl +:+ "DGF" +:+ Str.nl +:+ "KBW" in
  Forall (fun line => Str.len line < 7) (Str.split Str.nl_char text)
  /\ text_split text 7 = ["AAB" +:+ Str.nl +:+ "DGF"; "KBW"]
  /\ ~ Forall (fun chunk => Str.len chunk < 7) (text_split text 7).
Proof.
  split; [by repeat constructor |]. split; [done |].
  intros H. apply Forall_cons_1 in H as [H _]. vm_compute in H. discriminate H.
Qed.

(** ** The monad *)

Lemma bind_Some {St A B} (m : M St A) (k : A -> M St B) st r st' :
  bind m k st = Some (r, st') <->
  (exists e, m st = Some (Raised e, st') /\ r = Raised e)
  \/ (exists a st1, m st = Some (Returned a, st1) /\ k a st1 = Some (r, st')).
Proof.
  unfold bind. destruct (m st) as [[[a|e] st1]|]; split.
  - intros H. right. by exists a, st1.
  - intros [(e & H & _)|(a' & st2 & H & Hk)]; by simplify_eq.
  - intros H. simplify_eq. left. by exists e.
  - intros [(e' & H & ->)|(a' & st2 & H & Hk)]; by simplify_eq.
  - done.
  - intros [(e & H & _)|(a' & st2 & H & Hk)]; done.
Qed.

(** A loop whose body keeps a preorder on states keeps it. *)
Lemma for_each_preserves {St A} (R : St -> St -> Prop) (l : list A)
    (body : A -> M St unit) :
  (forall st, R st st) ->
  (forall st1 st2 st3, R st1 st2 -> R st2 st3 -> R st1 st3) ->
  (forall x st r st', body x st = Some (r, st') -> R st st') ->
  forall st r st', for_each l body st = Some (r, st') -> R st st'.
Proof.
  intros Hrefl Htrans Hbody. induction l as [|x l IH]; intros st r st' H.
  - unfold for_each, ret in H. by simplify_eq.
  - simpl in H. apply bind_Some in H as [(e & H & _)|(a & st1 & H & Hk)]; eauto.
Qed.

(** A loop whose body never raises never raises. *)
Lemma for_each_returns {St A} (l : list A) (body : A -> M St unit) :
  (forall x st r st', body x st = Some (r, st') -> r = Returned tt) ->
  forall st r st', for_each l body st = Some (r, st') -> r = Returned tt.
Proof.
  intros Hbody. induction l as [|x l IH]; intros st r st' H.
  - unfold for_each, ret in H. by simplify_eq.
  - simpl in H. apply bind_Some in H as [(e & H & _)|(a & st1 & H & Hk)]; eauto.
    by apply Hbody in H.
Qed.

(** ** The generation service, [extract_keywords] and [find_articles] *)

Section SearchFacts.

Context {World : Type}.
Variable run_llm :
  string -> string -> string -> option Z -> World -> (string + string) * World.
Variable fts5_accepts : string -> bool.
Variable fts5_match : string -> Article.t -> bool.
Variable bm25 : list Article.t -> string -> Article.t -> Q.

#[local] Abbreviation call_llm := (call_llm run_llm).
#[local] Abbreviation generation_failure := (generation_failure run_llm).
#[local] Abbreviation extract_keywords_loop := (extract_keywords_loop run_llm).
#[local] Abbreviation extract_keywords := (extract_keywords run_llm).
#[local] Abbreviation select_matching := (select_matching fts5_match bm25).
#[local] Abbreviation find_articles := (find_articles run_llm fts5_accepts fts5_match bm25).

(** A generation call leaves the table alone and raises nothing but the
    client's error. *)
Lemma call_llm_spec system user model seed (st : state) r st' :
  call_llm system user model seed st = Some (r, st') ->
  db st' = db st /\ log st' = log st
  /\ match r with Raised e => generation_failure e | Returned _ => True end.
Proof.
  unfold call_llm. destruct (run_llm _ _ _ _ _) as [[text|msg] w] eqn:Hllm; intros H;
    simplify_eq; simpl; [done |].
  split; [done |]. split; [done |]. by exists msg, system, user, model, seed, (world st), w.
Qed.

Lemma extract_keywords_loop_spec fuel text model key (st : state) r st' :
  extract_keywords_loop fuel text model key st = Some (r, st') ->
  db st' = db st
  /\ match r with
     | Raised e => generation_failure e
     | Returned key' => (length (Str.split Str.sp_char key') < 10)%nat
     end.
Proof.
  revert key st. induction fuel as [|fuel IH]; intros key st H; [done |].
  simpl in H. destruct (Z.ltb_spec (Z.of_nat (length (Str.split Str.sp_char key))) 10).
  - unfold ret in H. simplify_eq. split; [done | lia].
  - apply bind_Some in H as [(e & H & ->)|(key' & st1 & H & Hk)].
    + apply call_llm_spec in H as (? & ? & ?). done.
    + apply call_llm_spec in H as (Hdb & _). apply IH in Hk as [Hdb' ?].
      split; [congruence | done].
Qed.

Lemma extract_keywords_spec fuel text model seed (st : state) r st' :
  extract_keywords fuel text model seed st = Some (r, st') ->
  db st' = db st
  /\ match r with
     | Raised e => generation_failure e
     | Returned key => seed = None -> (length (Str.split Str.sp_char key) < 10)%nat
     end.
Proof.
  unfold extract_keywords. intros H.
  apply bind_Some in H as [(e & H & ->)|(key & st1 & H & Hk)].
  { apply call_llm_spec in H as (? & ? & ?). done. }
  apply call_llm_spec in H as (Hdb & _).
  destruct seed as [seed|].
  { unfold ret in Hk. simplify_eq. done. }
  apply bind_Some in Hk as [(e & Hk & ->)|(key' & st2 & Hk & Hlog)].
  { apply extract_keywords_loop_spec in Hk as [? ?]. split; [congruence | done]. }
  apply extract_keywords_loop_spec in Hk as [Hdb' Hlen].
  unfold bind, logging, ret in Hlog. simplify_eq. simpl. split; [congruence | done].
Qed.

(** C7: a call of [extract_keywords] without a seed that returns, returns a
    string of fewer than 10 pieces between blanks, and as long as the
    answer at hand has 10 pieces or more the generation service is called
    again; with a seed, the call is the one call of the generation service,
    whose answer it returns as it is. *)
Theorem extract_keywords_ceiling (fuel : nat) (text model : string) (st : state) :
  (forall key st',
      extract_keywords fuel text model None st = Some (Returned key, st') ->
      (length (Str.split Str.sp_char key) < 10)%nat)
  /\ (forall key,
        (10 <= length (Str.split Str.sp_char key))%nat ->
        extract_keywords_loop (S fuel) text model key st
        = (key' <- call_llm keywords_system ("Text: " +:+ text) model None ;;
           extract_keywords_loop fuel text model key') st)
  /\ (forall seed,
        extract_keywords fuel text model (Some seed) st
        = call_llm keywords_system ("Text: " +:+ text) model (Some seed) st).
Proof.
  split; [| split].
  - intros key st' H. apply extract_keywords_spec in H as [_ H]. by apply H.
  - intros key Hlong. simpl.
    destruct (Z.ltb_spec (Z.of_nat (length (Str.split Str.sp_char key))) 10); [lia | done].
  - intros seed. unfold extract_keywords, bind, ret.
    by destruct (call_llm _ _ _ _ st) as [[[key|e] st1]|].
Qed.

(** The rejection of a query never leaves [find_articles], and what it
    returns is the answer of the index to a query it accepts. *)
Lemma find_articles_spec fuel query limit timebias_alpha keywords_text model
    (st : state) r st' :
  Table.sqlite_int limit = true ->
  find_articles fuel query limit timebias_alpha keywords_text model st = Some (r, st') ->
  db st' = db st
  /\ match r with
     | Raised e => generation_failure e
     | Returned hits =>
         exists query', fts5_accepts query' = true
                        /\ hits = select_matching query' limit (db st)
                        /\ (query' = query \/ keywords_text <> None)
     end.
Proof.
  intros Hfit. revert query st.
  induction fuel as [|fuel IH]; intros query st H; [done |].
  simpl in H. unfold cursor_execute in H. rewrite Hfit in H.
  destruct (fts5_accepts query) eqn:Hacc.
  - unfold bind, get_db, ret in H. simplify_eq. split; [done |]. exists query. auto.
  - unfold raise in H. destruct keywords_text as [text|].
    + apply bind_Some in H as [(e & H & ->)|(query' & st1 & H & Hk)].
      * by apply extract_keywords_spec in H as [? ?].
      * apply extract_keywords_spec in H as [Hdb _]. apply IH in Hk as [Hdb' Hr].
        split; [congruence |]. destruct r as [hits|e]; [|done].
        destruct Hr as (q & ? & ? & ?). exists q. rewrite <- Hdb. auto.
    + apply IH in H as [Hdb' Hr]. split; [done |]. destruct r as [hits|e]; [|done].
      destruct Hr as (q & ? & ? & [->|?]); [congruence | done].
Qed.

(** The result of [find_articles] is the same for every [timebias_alpha]. *)
Lemma find_articles_any_timebias fuel query limit (alpha1 alpha2 : Q) keywords_text
    model (st : state) :
  find_articles fuel query limit alpha1 keywords_text model st
  = find_articles fuel query limit alpha2 keywords_text model st.
Proof.
  revert query st. induction fuel as [|fuel IH]; intros query st; [done |].
  simpl. unfold cursor_execute. destruct (Table.sqlite_int limit); [|done].
  destruct (fts5_accepts query); [done |].
  unfold raise. destruct keywords_text as [text|]; [|apply IH].
  unfold bind. destruct (extract_keywords _ _ _ _ st) as [[[query'|e] st2]|]; [|done..].
  apply IH.
Qed.

(** A limit that SQLite cannot hold makes [find_articles] raise at once. *)
Lemma find_articles_overflow fuel query limit timebias_alpha keywords_text model
    (st : state) :
  Table.sqlite_int limit = false ->
  find_articles (S fuel) query limit timebias_alpha keywords_text model st
  = Some (Raised Table.int_too_large, st).
Proof. intros Hbig. simpl. unfold cursor_execute. by rewrite Hbig. Qed.

(** C8, as the code has it: with a limit that SQLite can hold, when the index
    rejects a query [find_articles] does not raise the rejection to its
    caller: with a recovery text [keywords_text] it extracts a fresh keyword
    query from that text and searches again with it, and so on; the search
    that the index accepts is the one it answers with.  An exception does
    leave [find_articles] when the generation service fails while the
    keywords are extracted, and this is the only one that does. *)
Theorem find_articles_retries_rejected_query (fuel : nat) (query : string) (limit : Z)
    (timebias_alpha : Q) (model : string) (st : state) :
  Table.sqlite_int limit = true ->
  (forall keywords_text r st',
      find_articles fuel query limit timebias_alpha keywords_text model st = Some (r, st') ->
      match r with
      | Raised e => generation_failure e
      | Returned hits =>
          exists query', fts5_accepts query' = true
                         /\ hits = select_matching query' limit (db st)
      end)
  /\ (forall text,
        fts5_accepts query = false ->
        find_articles (S fuel) query limit timebias_alpha (Some text) model st
        = (query' <- extract_keywords fuel text model None ;;
           find_articles fuel query' limit timebias_alpha (Some text) model) st)
  /\ (forall keywords_text,
        fts5_accepts query = true ->
        find_articles (S fuel) query limit timebias_alpha keywords_text model st
        = Some (Returned (select_matching query limit (db st)), st)).
Proof.
  intros Hfit. split; [| split].
  - intros kt r st' H. apply find_articles_spec in H as [_ H]; [|done].
    destruct r as [hits|e]; [|done]. destruct H as (q & ? & ? & _). eauto.
  - intros text Hrej. simpl. unfold cursor_execute. by rewrite Hfit, Hrej.
  - intros kt Hacc. simpl. unfold cursor_execute. by rewrite Hfit, Hacc.
Qed.

End SearchFacts.

(** ** Tables *)

Section TableFacts.

Implicit Types (a : Article.t) (rows : list Article.t) (u : string).

Lemma set_depth_same a : Article.set_depth (Article.depth a) a = a.
Proof. by destruct a. Qed.

Lemma row_upgraded_refl bound a : row_upgraded bound a a.
Proof. split; [by rewrite set_depth_same | by left]. Qed.

Lemma row_upgraded_trans bound a1 a2 a3 :
  row_upgraded bound a1 a2 -> row_upgraded bound a2 a3 -> row_upgraded bound a1 a3.
Proof.
  intros [H12 D12] [H23 D23]. split; [|lia].
  rewrite H23, H12. by destruct a1.
Qed.

Lemma row_upgraded_weaken bound bound' a a' :
  bound <= bound' -> row_upgraded bound a a' -> row_upgraded bound' a a'.
Proof. intros ? [? ?]. split; [done | lia]. Qed.

Lemma row_upgraded_url bound a a' :
  row_upgraded bound a a' -> Article.url a' = Article.url a.
Proof. intros [-> _]. by destruct a. Qed.

Lemma rows_upgraded_refl bound rows : rows_upgraded bound rows rows.
Proof.
  exists rows, []. split; [by rewrite app_nil_r |].
  apply Forall_Forall2_diag, Forall_forall. intros; apply row_upgraded_refl.
Qed.

Lemma rows_upgraded_trans bound rows1 rows2 rows3 :
  rows_upgraded bound rows1 rows2 -> rows_upgraded bound rows2 rows3 ->
  rows_upgraded bound rows1 rows3.
Proof.
  intros (k1 & a1 & -> & H1) (k2 & a2 & -> & H2).
  apply Forall2_app_inv_l in H2 as (k21 & k22 & H21 & _ & ->).
  exists k21, (k22 ++ a2). split; [by rewrite app_assoc |].
  eapply Forall2_trans; [| exact H1 | exact H21].
  intros ???; apply row_upgraded_trans.
Qed.

Lemma rows_upgraded_weaken bound bound' rows rows' :
  bound <= bound' -> rows_upgraded bound rows rows' -> rows_upgraded bound' rows rows'.
Proof.
  intros ? (k & added & -> & H). exists k, added. split; [done |].
  eapply Forall2_impl; [exact H |]. intros ??; by apply row_upgraded_weaken.
Qed.

Lemma rows_upgraded_insert bound a rows : rows_upgraded bound rows (Table.insert a rows).
Proof.
  exists rows, [a]. split; [done |].
  apply Forall_Forall2_diag, Forall_forall. intros; apply row_upgraded_refl.
Qed.

Lemma rows_upgraded_update bound i d a rows :
  rows !! i = Some a -> Article.depth a < d <= bound ->
  rows_upgraded bound rows (Table.update_depth i d rows).
Proof.
  intros Hi Hd. exists (Table.update_depth i d rows), [].
  split; [by rewrite app_nil_r |]. unfold Table.update_depth.
  apply Forall2_alter_r.
  - apply Forall_Forall2_diag, Forall_forall. intros; apply row_upgraded_refl.
  - intros x y Hx Hy _. assert (x = a) as -> by congruence.
    assert (y = a) as -> by congruence.
    split; [by destruct a | simpl; lia].
Qed.

Lemma rows_upgraded_lookup bound rows rows' i a :
  rows_upgraded bound rows rows' -> rows !! i = Some a ->
  exists a', rows' !! i = Some a' /\ row_upgraded bound a a'.
Proof.
  intros (k & added & -> & H) Hi.
  destruct (Forall2_lookup_l _ _ _ _ _ H Hi) as (a' & Hk & Ha).
  exists a'. split; [by apply lookup_app_l_Some | done].
Qed.

(** The first row of a url stays the first row of that url. *)
Lemma rows_upgraded_first bound rows rows' u i a :
  rows_upgraded bound rows rows' -> Table.first_with_url u rows = Some (i, a) ->
  exists a', Table.first_with_url u rows' = Some (i, a') /\ row_upgraded bound a a'.
Proof.
  intros Hup Hfirst. unfold Table.first_with_url in *.
  apply list_find_Some in Hfirst as (Hi & Hu & Hleast).
  destruct (rows_upgraded_lookup _ _ _ _ _ Hup Hi) as (a' & Hi' & Ha).
  exists a'. split; [|done]. apply list_find_Some. split; [done |].
  split; [by rewrite (row_upgraded_url _ _ _ Ha) |].
  intros j y Hj Hlt Hy.
  destruct Hup as (k & added & -> & H).
  assert (Hlen : (i < length k)%nat).
  { rewrite <- (Forall2_length _ _ _ H). by eapply lookup_lt_Some. }
  rewrite lookup_app_l in Hj by lia.
  destruct (Forall2_lookup_r _ _ _ _ _ H Hj) as (x & Hx & Hxy).
  apply (Hleast j x Hx Hlt). by rewrite <- (row_upgraded_url _ _ _ Hxy).
Qed.




(** [count( * ) > 0] for a url is the existence of a first row with it. *)
Lemma count_url_first u rows :
  (0 <? Table.count_url u rows) = true <-> is_Some (Table.first_with_url u rows).
Proof.
  unfold Table.count_url, Table.first_with_url.
  induction rows as [|a rows IH]; csimpl.
  - split; [done | by intros [? ?]].
  - rewrite filter_cons. case_decide.
    + split; [by eexists | intros _; simpl length; apply Z.ltb_lt; lia].
    + rewrite IH. unfold is_Some. split.
      * intros [[i x] ->]. by eexists.
      * intros [? (x & -> & _)%fmap_Some]. by eexists.
Qed.

Lemma min_depth_le rows : min_depth rows <= 0 /\ Forall (fun a => min_depth rows <= Article.depth a) rows.
Proof.
  induction rows as [|a rows [IH0 IH]]; simpl; [split; [lia | constructor] |].
  split; [lia |]. constructor; [lia |].
  eapply Forall_impl; [exact IH |]. simpl. lia.
Qed.

End TableFacts.

(** ** The crawl *)

Section CrawlFacts.

Context {World : Type}.
Variable run_llm :
  string -> string -> string -> option Z -> World -> (string + string) * World.
Variable fetch_page_data : string -> World -> fetch_result * World.

#[local] Abbreviation add_url := (add_url run_llm fetch_page_data).
#[local] Abbreviation add_url_body := (add_url_body run_llm fetch_page_data).
#[local] Abbreviation add_url_store := (add_url_store run_llm fetch_page_data).
#[local] Abbreviation add_url_dupe := (add_url_dupe fetch_page_data).
#[local] Abbreviation crawl := (crawl run_llm fetch_page_data).

Implicit Types (st : @state World) (url model : string) (links : list string).
Implicit Types (self : string -> string -> Z -> bool -> M (@state World) unit).

Lemma bind_get_db {A} (k : list Article.t -> M state A) st :
  (rows <- get_db ;; k rows) st = k (db st) st.
Proof. reflexivity. Qed.

(** *** What the decorator does *)

Lemma catch_errors_inv (func : M state unit) st r st' :
  _catch_errors func st = Some (r, st') ->
  r = Returned tt
  /\ exists r1 st1, func st = Some (r1, st1) /\ db st' = db st1 /\ world st' = world st1.
Proof.
  unfold _catch_errors, logging.
  destruct (func st) as [[[[]|e] st1]|]; intros H; simplify_eq; eauto 6.
Qed.

Lemma catch_errors_returned (func : M state unit) st st' :
  func st = Some (Returned tt, st') -> _catch_errors func st = Some (Returned tt, st').
Proof. unfold _catch_errors. by intros ->. Qed.

Lemma add_url_returns fuel url model d allow st r st' :
  add_url fuel url model d allow st = Some (r, st') -> r = Returned tt.
Proof.
  destruct fuel as [|fuel]; [done |]. simpl. intros H.
  by apply catch_errors_inv in H as [-> _].
Qed.

Lemma follow_links_returns fuel links model d st r st' :
  follow_links (add_url fuel) links model d st = Some (r, st') -> r = Returned tt.
Proof.
  unfold follow_links. apply for_each_returns.
  intros link. apply add_url_returns.
Qed.

(** With a decorated method, the decorator has nothing to trap in the loop
    over the links. *)
Lemma catch_errors_follow_links fuel links model d st :
  _catch_errors (follow_links (add_url fuel) links model d) st
  = follow_links (add_url fuel) links model d st.
Proof.
  unfold _catch_errors.
  destruct (follow_links _ _ _ _ st) as [[r st1]|] eqn:H; [|done].
  by apply follow_links_returns in H as ->.
Qed.

(** *** Rows are kept and depths only raised *)

Lemma follow_links_upgrades self links model d :
  (forall link st r st',
      self link model (d - 1) false st = Some (r, st') ->
      rows_upgraded (d - 1) (db st) (db st')) ->
  forall st r st',
    follow_links self links model d st = Some (r, st') ->
    rows_upgraded (d - 1) (db st) (db st').
Proof.
  intros Hself. unfold follow_links.
  apply (for_each_preserves (fun st st' => rows_upgraded (d - 1) (db st) (db st'))).
  - intros; apply rows_upgraded_refl.
  - intros ???; apply rows_upgraded_trans.
  - intros link. apply Hself.
Qed.

Lemma add_url_store_upgrades self url model d st r st' :
  (forall link st r st',
      self link model (d - 1) false st = Some (r, st') ->
      rows_upgraded (d - 1) (db st) (db st')) ->
  add_url_store self url model d st = Some (r, st') ->
  rows_upgraded d (db st) (db st').
Proof.
  intros Hself H.
  pose proof (follow_links_upgrades self) as Hloop.
  unfold add_url_store, bind, call_fetch, logging, try_except, summarize_text,
    call_llm, set_db, ret, raise in H.
  destruct (fetch_page_data url (world st)) as [[data| |msg] w]; simpl in H;
    simplify_eq; try apply rows_upgraded_refl.
  destruct (30000 <? Str.len (Page.content data)).
  { destruct (0 <? d); simplify_eq; [| apply rows_upgraded_refl].
    apply Hloop in H; [|done]. simpl in H.
    eapply rows_upgraded_weaken; [|exact H]. lia. }
  destruct (run_llm _ _ _ _ _) as [[summary|msg] w']; simpl in H.
  - destruct (Table.sqlite_int d); simpl in H;
      [| simplify_eq; apply rows_upgraded_refl].
    destruct (0 <? d); simplify_eq; simpl; [| apply rows_upgraded_insert].
    apply Hloop in H; [|done]. simpl in H.
    eapply rows_upgraded_trans; [apply rows_upgraded_insert |].
    eapply rows_upgraded_weaken; [|exact H]. lia.
  - destruct (0 <? d); simplify_eq; [| apply rows_upgraded_refl].
    apply Hloop in H; [|done]. simpl in H.
    eapply rows_upgraded_weaken; [|exact H]. lia.
Qed.

Lemma add_url_dupe_upgrades self url model d st r st' :
  (forall link st r st',
      self link model (d - 1) false st = Some (r, st') ->
      rows_upgraded (d - 1) (db st) (db st')) ->
  add_url_dupe self url model d st = Some (r, st') ->
  rows_upgraded d (db st) (db st').
Proof.
  intros Hself H.
  pose proof (follow_links_upgrades self) as Hloop.
  unfold add_url_dupe, bind, call_fetch, logging, get_db, set_db, ret, raise in H.
  simpl in H.
  destruct (Table.first_with_url url (db st)) as [[i a]|] eqn:Hfirst;
    simplify_eq; [| apply rows_upgraded_refl].
  destruct (Z.ltb_spec (Article.depth a) d) as [Hlt|Hge];
    simplify_eq; [| apply rows_upgraded_refl].
  simpl in H.
  destruct (fetch_page_data url (world st)) as [[data| |msg] w]; simpl in H;
    simplify_eq; try apply rows_upgraded_refl.
  destruct (follow_links self _ _ _ _) as [[[[]|e] st2]|] eqn:Hlinks; simplify_eq.
  - apply Hloop in Hlinks; [|done]. simpl in Hlinks.
    destruct (rows_upgraded_first _ _ _ _ _ _ Hlinks Hfirst) as (a' & Hfirst' & Ha').
    rewrite Hfirst' in H.
    destruct (Table.sqlite_int d); simplify_eq; simpl;
      [| eapply rows_upgraded_weaken; [|exact Hlinks]; lia].
    eapply rows_upgraded_trans.
    + eapply rows_upgraded_weaken; [|exact Hlinks]. lia.
    + apply list_find_Some in Hfirst' as (Hi & _).
      eapply rows_upgraded_update; [exact Hi |]. destruct Ha' as [_ ?]. lia.
  - apply Hloop in Hlinks; [|done]. simpl in Hlinks.
    eapply rows_upgraded_weaken; [|exact Hlinks]. lia.
Qed.

Lemma add_url_upgrades fuel url model d allow st r st' :
  add_url fuel url model d allow st = Some (r, st') ->
  rows_upgraded d (db st) (db st').
Proof.
  revert url model d allow st r st'.
  induction fuel as [|fuel IH]; intros url model d allow st r st' H; [done |].
  simpl in H. apply catch_errors_inv in H as (_ & r1 & st1 & H & -> & _).
  unfold add_url_body in H.
  destruct (negb (Str.contains "hmc.edu" url)).
  { unfold logging in H. simplify_eq. apply rows_upgraded_refl. }
  rewrite bind_get_db in H.
  destruct (negb allow && (0 <? Table.count_url url (db st))).
  - eapply add_url_dupe_upgrades; [|exact H]. intros link; apply IH.
  - eapply add_url_store_upgrades; [|exact H]. intros link; apply IH.
Qed.


(** *** Every visit returns *)

Lemma catch_errors_total (func : M state unit) st r st1 :
  func st = Some (r, st1) ->
  exists st', _catch_errors func st = Some (Returned tt, st') /\ db st' = db st1.
Proof.
  unfold _catch_errors, logging. intros ->. destruct r as [[]|e]; eauto.
Qed.

Lemma follow_links_total (K : Z) self links model d :
  (forall link st,
      Forall (fun a => K <= Article.depth a) (db st) ->
      exists st', self link model (d - 1) false st = Some (Returned tt, st')
                  /\ Forall (fun a => K <= Article.depth a) (db st')) ->
  forall st,
    Forall (fun a => K <= Article.depth a) (db st) ->
    exists st', follow_links self links model d st = Some (Returned tt, st')
                /\ Forall (fun a => K <= Article.depth a) (db st').
Proof.
  intros Hself. unfold follow_links.
  induction links as [|link links IH]; intros st HF; simpl.
  - by exists st.
  - destruct (Hself link st HF) as (st1 & Heq & HF1).
    unfold bind. rewrite Heq. by apply IH.
Qed.

Lemma add_url_store_total (K : Z) self url model d st :
  K <= d ->
  (0 < d ->
   forall link st,
     Forall (fun a => K <= Article.depth a) (db st) ->
     exists st', self link model (d - 1) false st = Some (Returned tt, st')
                 /\ Forall (fun a => K <= Article.depth a) (db st')) ->
  Forall (fun a => K <= Article.depth a) (db st) ->
  exists r st', add_url_store self url model d st = Some (r, st')
                /\ Forall (fun a => K <= Article.depth a) (db st').
Proof.
  intros HK Hself HF.
  unfold add_url_store, bind, call_fetch, logging, try_except, summarize_text,
    call_llm, set_db, ret, raise.
  destruct (fetch_page_data url (world st)) as [[data| |msg] w]; simpl; eauto.
  destruct (30000 <? Str.len (Page.content data)).
  { destruct (Z.ltb_spec 0 d) as [Hd|Hd]; [|eauto].
    edestruct (follow_links_total K self (Page.links data) model d (Hself Hd))
      as (st' & -> & HF'); [|eauto]. done. }
  destruct (run_llm _ _ _ _ _) as [[summary|msg] w']; simpl.
  - destruct (Table.sqlite_int d); simpl; [|eauto].
    match goal with
    | |- context [Table.insert ?row (db st)] =>
        assert (HF1 : Forall (fun a => K <= Article.depth a) (Table.insert row (db st)))
          by (apply Forall_app; split; [done | by repeat constructor])
    end.
    destruct (Z.ltb_spec 0 d) as [Hd|Hd]; [|eauto].
    edestruct (follow_links_total K self (Page.links data) model d (Hself Hd))
      as (st' & -> & HF'); [|eauto]. done.
  - destruct (Z.ltb_spec 0 d) as [Hd|Hd]; [|eauto].
    edestruct (follow_links_total K self (Page.links data) model d (Hself Hd))
      as (st' & -> & HF'); [|eauto]. done.
Qed.

Lemma add_url_dupe_total (K : Z) self url model d st :
  K <= d ->
  (K <= d - 1 ->
   forall link st,
     Forall (fun a => K <= Article.depth a) (db st) ->
     exists st', self link model (d - 1) false st = Some (Returned tt, st')
                 /\ Forall (fun a => K <= Article.depth a) (db st')) ->
  Forall (fun a => K <= Article.depth a) (db st) ->
  exists r st', add_url_dupe self url model d st = Some (r, st')
                /\ Forall (fun a => K <= Article.depth a) (db st').
Proof.
  intros HK Hself HF.
  unfold add_url_dupe, bind, call_fetch, logging, get_db, set_db, ret, raise. simpl.
  destruct (Table.first_with_url url (db st)) as [[i a]|] eqn:Hfirst; [|eauto].
  destruct (Z.ltb_spec (Article.depth a) d) as [Hlt|Hge]; [|eauto]. simpl.
  destruct (fetch_page_data url (world st)) as [[data| |msg] w]; simpl; eauto.
  assert (HKa : K <= Article.depth a).
  { apply list_find_Some in Hfirst as (Hi & _).
    by apply (proj1 (Forall_lookup _ _) HF i a). }
  edestruct (follow_links_total K self (Page.links data) model d) as (st2 & -> & HF2);
    [apply Hself; lia | |]; [done |].
  destruct (Table.first_with_url url (db st2)) as [[j a2]|]; [|eauto].
  destruct (Table.sqlite_int d); [|eauto].
  do 2 eexists. split; [done |]. simpl. unfold Table.update_depth.
  apply Forall_alter; [done |]. intros; simpl; lia.
Qed.

Lemma add_url_total (K : Z) fuel url model d allow st :
  K <= 0 -> K <= d ->
  Forall (fun a => K <= Article.depth a) (db st) ->
  (Z.to_nat (d - K) < fuel)%nat ->
  exists st', add_url fuel url model d allow st = Some (Returned tt, st')
              /\ Forall (fun a => K <= Article.depth a) (db st').
Proof.
  intros HK0. revert url model d allow st.
  induction fuel as [|fuel IH]; intros url model d allow st HK HF Hfuel; [lia |].
  assert (Hrec : K <= d - 1 ->
            forall link st,
              Forall (fun a => K <= Article.depth a) (db st) ->
              exists st', add_url fuel link model (d - 1) false st = Some (Returned tt, st')
                          /\ Forall (fun a => K <= Article.depth a) (db st')).
  { intros ? link st0 HF0. apply IH; [done | done | lia]. }
  assert (exists r st1, add_url_body (add_url fuel) url model d allow st = Some (r, st1)
                        /\ Forall (fun a => K <= Article.depth a) (db st1))
    as (r & st1 & Hbody & HF1).
  { unfold add_url_body. destruct (negb (Str.contains "hmc.edu" url)).
    - unfold logging. eauto.
    - rewrite bind_get_db.
      destruct (negb allow && (0 <? Table.count_url url (db st))).
      + by apply (add_url_dupe_total K).
      + apply (add_url_store_total K); [done | | done]. intros ?. apply Hrec. lia. }
  simpl. destruct (catch_errors_total _ _ _ _ Hbody) as (st' & -> & Hdb).
  exists st'. split; [done |]. by rewrite Hdb.
Qed.

Lemma add_url_crawl_fuel url model d allow st :
  exists st', add_url (crawl_fuel d (db st)) url model d allow st = Some (Returned tt, st').
Proof.
  destruct (min_depth_le (db st)) as [H0 HF].
  destruct (add_url_total (Z.min d (min_depth (db st))) (crawl_fuel d (db st))
              url model d allow st) as (st' & H & _); [lia | lia | | | eauto].
  - eapply Forall_impl; [exact HF |]. simpl. lia.
  - unfold crawl_fuel. lia.
Qed.

(** *** Fuel only bounds the recursion *)

Lemma follow_links_mono self self' links model d :
  (forall link st x,
      self link model (d - 1) false st = Some x ->
      self' link model (d - 1) false st = Some x) ->
  forall st x,
    follow_links self links model d st = Some x ->
    follow_links self' links model d st = Some x.
Proof.
  intros Hself. unfold follow_links.
  induction links as [|link links IH]; intros st x H; [done |].
  simpl in *. unfold bind in *.
  destruct (self link model (d - 1) false st) as [[[[]|e] st1]|] eqn:Hs; [| |done].
  - rewrite (Hself _ _ _ Hs). by apply IH.
  - by rewrite (Hself _ _ _ Hs).
Qed.

Lemma add_url_store_mono self self' url model d st x :
  (forall link st x,
      self link model (d - 1) false st = Some x ->
      self' link model (d - 1) false st = Some x) ->
  add_url_store self url model d st = Some x ->
  add_url_store self' url model d st = Some x.
Proof.
  intros Hself. pose proof (follow_links_mono self self') as Hloop.
  unfold add_url_store, bind, call_fetch, logging, try_except, summarize_text,
    call_llm, set_db, ret, raise.
  destruct (fetch_page_data url (world st)) as [[data| |msg] w]; simpl; try done.
  destruct (30000 <? Str.len (Page.content data)).
  { destruct (0 <? d); [by apply Hloop | done]. }
  destruct (run_llm _ _ _ _ _) as [[summary|msg] w']; simpl;
    [destruct (Table.sqlite_int d); simpl; [|done] |];
    (destruct (0 <? d); [by apply Hloop | done]).
Qed.

Lemma add_url_dupe_mono self self' url model d st x :
  (forall link st x,
      self link model (d - 1) false st = Some x ->
      self' link model (d - 1) false st = Some x) ->
  add_url_dupe self url model d st = Some x ->
  add_url_dupe self' url model d st = Some x.
Proof.
  intros Hself. pose proof (follow_links_mono self self') as Hloop.
  unfold add_url_dupe, bind, call_fetch, logging, get_db, set_db, ret, raise. simpl.
  destruct (Table.first_with_url url (db st)) as [[i a]|]; [|done].
  destruct (Article.depth a <? d); [|done]. simpl.
  destruct (fetch_page_data url (world st)) as [[data| |msg] w]; simpl; try done.
  destruct (follow_links self _ _ _ _) as [y|] eqn:Hlinks; [|done].
  by rewrite (Hloop _ _ _ Hself _ _ Hlinks).
Qed.

(** A call that ends with some fuel ends the same with more. *)
Lemma add_url_fuel_mono fuel fuel' url model d allow st x :
  (fuel <= fuel')%nat ->
  add_url fuel url model d allow st = Some x ->
  add_url fuel' url model d allow st = Some x.
Proof.
  revert fuel' url model d allow st x.
  induction fuel as [|fuel IH]; intros fuel' url model d allow st x Hle H; [done |].
  destruct fuel' as [|fuel']; [lia |].
  assert (Hself : forall link st x,
             add_url fuel link model (d - 1) false st = Some x ->
             add_url fuel' link model (d - 1) false st = Some x).
  { intros link st0 x0. apply IH. lia. }
  simpl in *. unfold _catch_errors in *.
  destruct (add_url_body (add_url fuel) url model d allow st) as [y|] eqn:Hbody; [|done].
  assert (add_url_body (add_url fuel') url model d allow st = Some y) as ->; [|done].
  revert Hbody. unfold add_url_body.
  destruct (negb (Str.contains "hmc.edu" url)); [done |].
  rewrite !bind_get_db.
  destruct (negb allow && (0 <? Table.count_url url (db st))).
  - by apply add_url_dupe_mono.
  - by apply add_url_store_mono.
Qed.

(** *** The paths of a visit *)

Lemma catch_errors_ext (f g : M state unit) st st1 :
  f st = g st1 -> _catch_errors f st = _catch_errors g st1.
Proof. unfold _catch_errors. by intros ->. Qed.

Lemma catch_errors_links fuel links model d st :
  _catch_errors (if 0 <? d then follow_links (add_url fuel) links model d else ret tt) st
  = (if 0 <? d then follow_links (add_url fuel) links model d else ret tt) st.
Proof. destruct (0 <? d); [apply catch_errors_follow_links | done]. Qed.

Lemma add_url_outside fuel url model d allow st :
  Str.contains "hmc.edu" url = false ->
  add_url (S fuel) url model d allow st
  = Some (Returned tt,
          {| db := db st; world := world st;
             log := log st ++ [Info ("outside url, skipped:" +:+ url)] |}).
Proof. intros H. simpl. unfold _catch_errors, add_url_body. by rewrite H. Qed.

Lemma add_url_store_path fuel url model d allow st :
  Str.contains "hmc.edu" url = true ->
  allow = true \/ Table.count_url url (db st) = 0 ->
  add_url (S fuel) url model d allow st
  = _catch_errors (add_url_store (add_url fuel) url model d) st.
Proof.
  intros Hin Hnew. simpl. apply catch_errors_ext. unfold add_url_body.
  rewrite Hin. cbn [negb]. rewrite bind_get_db. simpl.
  by destruct Hnew as [->| ->]; [|rewrite andb_false_r].
Qed.

Lemma add_url_dupe_path fuel url model d st i a :
  Str.contains "hmc.edu" url = true ->
  Table.first_with_url url (db st) = Some (i, a) ->
  add_url (S fuel) url model d false st
  = _catch_errors (add_url_dupe (add_url fuel) url model d) st.
Proof.
  intros Hin Hfirst. simpl. apply catch_errors_ext. unfold add_url_body.
  rewrite Hin. cbn [negb]. rewrite bind_get_db. simpl.
  by rewrite (proj2 (count_url_first url (db st))) by (by rewrite Hfirst).
Qed.

(** A visit of a stored url with a budget that is no larger than the depth
    stored: a record is logged and nothing else happens. *)
Lemma add_url_dupe_skip fuel url model d st i a :
  Table.first_with_url url (db st) = Some (i, a) ->
  d <= Article.depth a ->
  exists record,
    add_url (S fuel) url model d false st
    = Some (Returned tt,
            {| db := db st; world := world st; log := log st ++ [record] |}).
Proof.
  intros Hfirst Hd. destruct (Str.contains "hmc.edu" url) eqn:Hin.
  - rewrite (add_url_dupe_path _ _ _ _ _ _ _ Hin Hfirst).
    unfold _catch_errors, add_url_dupe, bind, logging, get_db, ret. simpl.
    rewrite Hfirst. destruct (Z.ltb_spec (Article.depth a) d); [lia | eauto].
  - rewrite add_url_outside by done. eauto.
Qed.

(** The re-crawl of a stored url with a larger budget: the page is fetched,
    its links are visited, and then the depth of the row is set. *)
Lemma add_url_recrawl fuel url model d st i a data w r st' :
  Str.contains "hmc.edu" url = true ->
  Table.first_with_url url (db st) = Some (i, a) ->
  Article.depth a < d ->
  fetch_page_data url (world st) = (Fetched data, w) ->
  add_url (S fuel) url model d false st = Some (r, st') ->
  exists st2,
    follow_links (add_url fuel) (Page.links data) model d
      {| db := db st; world := w;
         log := log st ++ [Info ("With depth " +:+ Str.str d
                                 +:+ " duplicate detected, skip " +:+ url)] |}
    = Some (Returned tt, st2)
    /\ rows_upgraded (d - 1) (db st) (db st2)
    /\ st' = (if Table.sqlite_int d
              then {| db := Table.update_depth i d (db st2); world := world st2;
                      log := log st2 |}
              else {| db := db st2; world := world st2;
                      log := log st2 ++ [Error (exn_str Table.int_too_large)] |}).
Proof.
  intros Hin Hfirst Hlt Hfetch H.
  rewrite (add_url_dupe_path _ _ _ _ _ _ _ Hin Hfirst) in H.
  unfold _catch_errors, add_url_dupe, bind, call_fetch, logging, get_db, set_db,
    ret, raise in H. simpl in H.
  rewrite Hfirst in H. destruct (Z.ltb_spec (Article.depth a) d); [|lia].
  simpl in H. rewrite Hfetch in H. simpl in H.
  destruct (follow_links _ _ _ _ _) as [[r2 st2]|] eqn:Hlinks; [|done].
  pose proof (follow_links_returns _ _ _ _ _ _ _ Hlinks) as ->.
  pose proof (follow_links_upgrades _ _ _ _
                (fun link st r st' => add_url_upgrades fuel link model (d - 1) false st r st')
                _ _ _ Hlinks) as Hup.
  simpl in Hup.
  destruct (rows_upgraded_first _ _ _ _ _ _ Hup Hfirst) as (a' & Hfirst' & _).
  rewrite Hfirst' in H. exists st2. split; [done|]. split; [done|].
  destruct (Table.sqlite_int d); simpl in H; by simplify_eq.
Qed.

(** *** The claims on [add_url] *)

(** X19: a url in which the text ["hmc.edu"] does not occur is skipped,
    whatever the budget: the call returns without an error, the table is as
    it was, no collaborator was called (the world is as it was, so the url
    was not fetched), and the only trace is one [info] record. *)
Theorem add_url_skips_outside_url (fuel : nat) (url model : string) (d : Z)
    (allow : bool) (st : state) :
  Str.contains "hmc.edu" url = false ->
  add_url (S fuel) url model d allow st
  = Some (Returned tt,
          {| db := db st; world := world st;
             log := log st ++ [Info ("outside url, skipped:" +:+ url)] |}).
Proof. apply add_url_outside. Qed.

(** C4: a call of [add_url], duplicates not allowed, on a url that is stored
    with a depth that the budget does not exceed, returns and leaves the
    table as it was: [len(db)] is the same before and after, the row of
    that url is the same row with the same depth; nothing is fetched either. *)
Theorem add_url_again_changes_nothing (fuel : nat) (url model : string) (d : Z)
    (st : state) (i : nat) (a : Article.t) :
  Table.first_with_url url (db st) = Some (i, a) ->
  d <= Article.depth a ->
  exists st',
    add_url (S fuel) url model d false st = Some (Returned tt, st')
    /\ (exists n, ArticleDB_len st = Some (Returned n, st)
                   /\ ArticleDB_len st' = Some (Returned n, st'))
    /\ Table.first_with_url url (db st') = Some (i, a)
    /\ db st' = db st
    /\ world st' = world st.
Proof.
  intros Hfirst Hd.
  destruct (add_url_dupe_skip fuel url model d st i a Hfirst Hd) as (record & ->).
  eexists. split; [done |]. simpl. rewrite Hfirst.
  split; [by exists (Table.count (db st)) | done].
Qed.


(** C2, as the code has it: a page fetched to be stored whose content has
    more than 30,000 characters is neither summarized nor inserted: what the
    visit does after the fetch is two [info] records and, when the budget is
    above 0, the visit of every link of the page with the budget less one;
    with a budget of 0 or less, nothing.  The re-crawl of a stored url, for a
    page of any length, visits the links and then sets the depth of the row
    that is there (or, for a budget SQLite cannot hold, logs the error of
    the [UPDATE] and sets nothing): it inserts nothing either. *)
Theorem add_url_size_gate (fuel : nat) (url model : string) (d : Z) (st : state)
    (data : Page.t) (w : World) :
  fetch_page_data url (world st) = (Fetched data, w) ->
  Str.contains "hmc.edu" url = true ->
  (forall allow,
      allow = true \/ Table.count_url url (db st) = 0 ->
      30000 < Str.len (Page.content data) ->
      add_url (S fuel) url model d allow st
      = (if 0 <? d then follow_links (add_url fuel) (Page.links data) model d
         else ret tt)
          {| db := db st; world := w;
             log := log st
                    ++ [Info ("With depth " +:+ Str.str d
                              +:+ " inserting into database " +:+ url);
                        Info ("Page to long for summary: " +:+ url)] |})
  /\ (forall i a r st',
        Table.first_with_url url (db st) = Some (i, a) ->
        Article.depth a < d ->
        add_url (S fuel) url model d false st = Some (r, st') ->
        exists st2,
          follow_links (add_url fuel) (Page.links data) model d
            {| db := db st; world := w;
               log := log st ++ [Info ("With depth " +:+ Str.str d
                                       +:+ " duplicate detected, skip " +:+ url)] |}
          = Some (Returned tt, st2)
          /\ st' = (if Table.sqlite_int d
                    then {| db := Table.update_depth i d (db st2);
                            world := world st2; log := log st2 |}
                    else {| db := db st2; world := world st2;
                            log := log st2
                                   ++ [Error (exn_str Table.int_too_large)] |})).
Proof.
  intros Hfetch Hin. split.
  - intros allow Hnew Hlong.
    rewrite (add_url_store_path _ _ _ _ _ _ Hin Hnew).
    rewrite <- catch_errors_links. apply catch_errors_ext.
    unfold add_url_store, bind, call_fetch, logging. rewrite Hfetch. simpl.
    destruct (Z.ltb_spec 30000 (Str.len (Page.content data))); [|lia].
    cbn [db world log]. by rewrite <- app_assoc.
  - intros i a r st' Hfirst Hlt H.
    destruct (add_url_recrawl _ _ _ _ _ _ _ _ _ _ _ Hin Hfirst Hlt Hfetch H)
      as (st2 & ? & _ & ?). by exists st2.
Qed.

(** C9: [add_url] never raises.  With the fuel of [crawl_fuel] it returns,
    with any larger fuel it returns the same, and whenever it ends it has
    returned; an exception met in the visit (here one that escapes from the
    fetch) is logged as an [error] record.  When
    the summary of a fetched page fails, the page is not inserted: what the
    visit does after the failure is an [info] record and, when the budget is
    above 0, the visit of every link of the page with the budget less one. *)
Theorem add_url_traps_errors (url model : string) (d : Z) (allow : bool) (st : state) :
  (exists st',
      forall fuel, (crawl_fuel d (db st) <= fuel)%nat ->
                   add_url fuel url model d allow st = Some (Returned tt, st'))
  /\ (forall fuel r st',
        add_url fuel url model d allow st = Some (r, st') -> r = Returned tt)
  /\ (forall fuel msg w,
        Str.contains "hmc.edu" url = true ->
        allow = true \/ Table.count_url url (db st) = 0 ->
        fetch_page_data url (world st) = (FetchRaised msg, w) ->
        add_url (S fuel) url model d allow st
        = Some (Returned tt,
                {| db := db st; world := w; log := log st ++ [Error msg] |}))
  /\ (forall fuel data w msg w',
        Str.contains "hmc.edu" url = true ->
        allow = true \/ Table.count_url url (db st) = 0 ->
        fetch_page_data url (world st) = (Fetched data, w) ->
        Str.len (Page.content data) <= 30000 ->
        run_llm summarize_system (Page.content data) model None w = (inr msg, w') ->
        add_url (S fuel) url model d allow st
        = (if 0 <? d then follow_links (add_url fuel) (Page.links data) model d
           else ret tt)
            {| db := db st; world := w';
               log := log st
                      ++ [Info ("With depth " +:+ Str.str d
                                +:+ " inserting into database " +:+ url);
                          Info ("Fail to summarize for " +:+ url)] |}).
Proof.
  split; [| split; [| split]].
  - destruct (add_url_crawl_fuel url model d allow st) as (st' & H).
    exists st'. intros fuel Hle. by eapply add_url_fuel_mono.
  - intros fuel r st'. apply add_url_returns.
  - intros fuel msg w Hin Hnew Hfetch.
    rewrite (add_url_store_path _ _ _ _ _ _ Hin Hnew).
    unfold _catch_errors, add_url_store, bind, call_fetch, logging.
    by rewrite Hfetch.
  - intros fuel data w msg w' Hin Hnew Hfetch Hlen Hllm.
    rewrite (add_url_store_path _ _ _ _ _ _ Hin Hnew).
    rewrite <- catch_errors_links. apply catch_errors_ext.
    unfold add_url_store, bind, call_fetch, logging, try_except, summarize_text,
      call_llm, ret.
    rewrite Hfetch. simpl.
    destruct (Z.ltb_spec 30000 (Str.len (Page.content data))); [lia |].
    cbn [db world log]. rewrite Hllm. cbn [db world log].
    rewrite <- app_assoc. by destruct (0 <? d).
Qed.

End CrawlFacts.

(** ** The program at work *)

(** The combined score at [timebias_alpha = 1] of a score [r1] over [d1]
    days is below that of [r2] over [d2] days as soon as
    [r1 (d2 + 1) < r2 (d1 + 1)]. *)
Lemma combined_score_lt (r1 r2 d1 d2 : Q) :
  (0 <= d1)%Q -> (0 <= d2)%Q ->
  (r1 * (d2 + 1) < r2 * (d1 + 1))%Q ->
  (combined_score r1 1 d1 < combined_score r2 1 d2)%Q.
Proof.
  intros Hd1 Hd2 Hlt. unfold combined_score.
  apply Qlt_shift_div_r; [lra |].
  assert (r2 * 1 / (d2 + 1) * (d1 + 1) == r2 * (d1 + 1) / (d2 + 1))%Q as ->
    by (field; lra).
  apply Qlt_shift_div_l; [lra | lra].
Qed.

(** C1: [find_articles] does not rank by the combined score of its docstring.
    Its result does not depend on [timebias_alpha] at all, whatever the index
    and the table.  In the library of the two articles on biology, the search
    for [biology] returns them, for every [timebias_alpha], in the order of
    the score of the index alone: first the old article, of score
    -143/103250000 (about -1.3850e-6), then the recent one, of score
    -143/104750000 (about -1.3652e-6).  With [timebias_alpha = 1] the
    combined score of the recent article is the lower of the two whenever
    the old article is more than twice as many days old, as it is on the
    day of the crawl, 1000 days against 1. *)
Theorem find_articles_ignores_timebias :
  (forall (World : Type) run_llm fts5_accepts fts5_match bm25 fuel query limit
          (alpha1 alpha2 : Q) keywords_text model (st : @state World),
      find_articles run_llm fts5_accepts fts5_match bm25 fuel query limit alpha1
        keywords_text model st
      = find_articles run_llm fts5_accepts fts5_match bm25 fuel query limit alpha2
          keywords_text model st)
  /\ exists old recent : Hit.t,
    (forall timebias_alpha,
        Demo.find_articles 1 "biology" 5 timebias_alpha None "m" Demo.library
        = Some (Returned [old; recent], Demo.library))
    /\ Hit.rowid old = 1 /\ Hit.summary old = Article.summary Demo.old_article
    /\ Hit.rowid recent = 2
    /\ Hit.summary recent = Article.summary Demo.recent_article
    /\ Hit.relevance_score old = (-143 # 103250000)%Q
    /\ Hit.relevance_score recent = (-143 # 104750000)%Q
    /\ (forall days_old days_recent : Q,
          (0 <= days_recent)%Q ->
          (2 * days_recent + 1 <= days_old)%Q ->
          (combined_score (Hit.relevance_score recent) 1 days_recent
           < combined_score (Hit.relevance_score old) 1 days_old)%Q)
    /\ (combined_score (Hit.relevance_score recent) 1 1
         < combined_score (Hit.relevance_score old) 1 1000)%Q.
Proof.
  split; [intros; apply find_articles_any_timebias |].
  exists {| Hit.rowid := 1; Hit.title := "Biology"; Hit.content := "biology major";
            Hit.summary := "old"; Hit.relevance_score := (-143 # 103250000)%Q |},
         {| Hit.rowid := 2; Hit.title := "Biology";
            Hit.content := "biology major today"; Hit.summary := "recent";
            Hit.relevance_score := (-143 # 104750000)%Q |}.
  split; [intros alpha; vm_compute; reflexivity |].
  do 6 (split; [reflexivity |]).
  split; [| vm_compute; reflexivity].
  intros days_old days_recent Hrecent Hold. cbn [Hit.relevance_score].
  apply combined_score_lt; [done | lra | lra].
Qed.

(** C5: the gate of [add_url] lets through a url outside the allowed domain.
    The gate is the test that the text ["hmc.edu"] occurs in the url,
    wherever it occurs.  The url [https://example.com/?q=hmc.edu] has the
    host [example.com], which is not [hmc.edu] nor under it, and the text in
    its query.  A visit of it, with any budget that SQLite can hold, is not
    skipped: the page is fetched (one fetch) and summarized, and a row is
    stored for that url. *)
Theorem add_url_stores_url_outside_domain :
  url_host Demo.url_mirror = "example.com"%string
  /\ in_allowed_domain "hmc.edu" Demo.url_mirror = false
  /\ in_allowed_domain "hmc.edu" Demo.url_a = true
  /\ Str.contains "hmc.edu" Demo.url_mirror = true
  /\ forall d : Z,
       Table.sqlite_int d = true ->
       exists st',
         Demo.add_url 1 Demo.url_mirror "m" d false Demo.empty
         = Some (Returned tt, st')
         /\ db st' = [ {| Article.title := "Title";
                          Article.content := "A page of another site";
                          Article.url := Demo.url_mirror;
                          Article.publish_date := "Unknown";
                          Article.crawl_date := "2024-09-01 12:00:00";
                          Article.summary := "summary";
                          Article.depth := d |} ]
         /\ world st' = {| Demo.fetches := 1; Demo.generations := 1 |}.
Proof.
  do 4 (split; [vm_compute; reflexivity |]).
  intros d Hfit. unfold Demo.add_url.
  rewrite add_url_store_path; [| reflexivity | right; reflexivity].
  unfold _catch_errors, add_url_store, bind, call_fetch, logging, try_except,
    summarize_text, call_llm, set_db, ret, raise, follow_links. simpl.
  rewrite Hfit. simpl. destruct (0 <? d); simpl; eauto.
Qed.

(** C8, as the spec has it, fails when the generation service does: the
    index rejects the query [AND], the keywords are to be extracted from the
    recovery text, the generation service fails on it, and its error leaves
    [find_articles]: the caller gets an exception, not a list, after one
    call of the service. *)
Lemma find_articles_raises_when_extraction_fails :
  Demo.fts5_accepts "AND" = false
  /\ Table.sqlite_int 5 = true
  /\ Demo.find_articles 3 "AND" 5 1 (Some "silence"%string) "m" Demo.library
     = Some (Raised (GenerationError "connection error"),
             {| db := db Demo.library;
                world := {| Demo.fetches := 0; Demo.generations := 1 |};
                log := [] |}).
Proof. repeat split. Qed.

(** C2, as the spec has it, fails at 30,000 characters: the page of
    [url_edge] has a content of exactly 30,000 characters, and the visit
    stores it: the table, empty before, has after it one row, for that url,
    with those 30,000 characters as content. *)
Lemma add_url_stores_page_of_30000_characters :
  Str.len (Page.content Demo.page_edge) = 30000
  /\ option_map
       (fun '(r, st') =>
          (r, map (fun a => (Article.url a, Str.len (Article.content a))) (db st')))
       (Demo.add_url 1 Demo.url_edge "m" 0 false Demo.empty)
     = Some (Returned tt, [(Demo.url_edge, 30000)]).
Proof. split; vm_compute; reflexivity. Qed.

Lemma add_url_size_gate_witness :
  match Demo.add_url 2 Demo.url_big "m" 1 false Demo.empty with
  | Some (Returned tt, st') => map Article.url (db st') = [Demo.url_b]
  | _ => False
  end.
Proof.
  destruct (add_url_size_gate Demo.run_llm Demo.fetch_page_data 1 Demo.url_big "m" 1
              Demo.empty Demo.page_big (Demo.fetched Demo.no_calls) eq_refl eq_refl)
    as [Hstore _].
  unfold Demo.add_url. rewrite (Hstore false); [| right; reflexivity | vm_compute; reflexivity].
  vm_compute. reflexivity.
Defined.


Lemma add_url_again_changes_nothing_witness :
  exists st',
    Demo.add_url 1 Demo.url_a "m" 2 false Demo.crawled = Some (Returned tt, st')
    /\ (exists n, ArticleDB_len Demo.crawled = Some (Returned n, Demo.crawled)
                   /\ ArticleDB_len st' = Some (Returned n, st'))
    /\ Table.first_with_url Demo.url_a (db st') = Some (0%nat, Demo.row_a)
    /\ db st' = db Demo.crawled
    /\ world st' = world Demo.crawled.
Proof.
  apply (add_url_again_changes_nothing Demo.run_llm Demo.fetch_page_data 0
           Demo.url_a "m" 2 Demo.crawled 0 Demo.row_a);
    [vm_compute; reflexivity | simpl; lia].
Defined.

Lemma add_url_skips_outside_url_witness :
  Demo.add_url 1 Demo.url_out "m" 3 false Demo.empty
  = Some (Returned tt,
          {| db := []; world := Demo.no_calls;
             log := [Info "outside url, skipped:https://example.com/x"] |}).
Proof.
  apply (add_url_skips_outside_url Demo.run_llm Demo.fetch_page_data 0
           Demo.url_out "m" 3 false Demo.empty).
  reflexivity.
Defined.

Lemma extract_keywords_ceiling_witness :
  (length (Str.split Str.sp_char "biology major") < 10)%nat
  /\ Demo.extract_keywords 5 "biology?" "m" (Some 0) Demo.empty
     = Some (Returned Demo.twelve_keywords,
             {| db := []; world := Demo.generated Demo.no_calls; log := [] |})
  /\ length (Str.split Str.sp_char Demo.twelve_keywords) = 12%nat.
Proof.
  destruct (extract_keywords_ceiling Demo.run_llm 5 "biology?" "m" Demo.empty)
    as (Hshort & _ & Hseed).
  split; [| split; [| reflexivity]].
  - apply (Hshort "biology major"%string
             {| db := []; world := Demo.generated (Demo.generated Demo.no_calls);
                log := [Info "get keywords: biology major"] |}).
    vm_compute. reflexivity.
  - unfold Demo.extract_keywords. rewrite Hseed. reflexivity.
Defined.

Lemma find_articles_retries_rejected_query_witness :
  Demo.fts5_accepts "AND" = false
  /\ match Demo.find_articles 3 "AND" 5 1 (Some "biology?"%string) "m" Demo.library with
     | Some (Returned hits, _) => map Hit.rowid hits = [1; 2]
     | _ => False
     end.
Proof.
  split; [reflexivity |].
  destruct (find_articles_retries_rejected_query Demo.run_llm Demo.fts5_accepts
              Demo.fts5_match Demo.bm25 2 "AND" 5 1 "m" Demo.library eq_refl)
    as (_ & Hretry & _).
  unfold Demo.find_articles. rewrite (Hretry "biology?"%string) by reflexivity.
  vm_compute. reflexivity.
Defined.

Lemma add_url_traps_errors_witness :
  match Demo.add_url 3 Demo.url_mute "m" 1 false Demo.empty with
  | Some (Returned tt, st') => map Article.url (db st') = [Demo.url_b]
  | _ => False
  end.
Proof.
  destruct (add_url_traps_errors Demo.run_llm Demo.fetch_page_data Demo.url_mute "m" 1
              false Demo.empty) as (_ & _ & _ & Hmute).
  unfold Demo.add_url.
  rewrite (Hmute 2%nat Demo.page_mute (Demo.fetched Demo.no_calls)
             "rate limit reached"%string (Demo.generated (Demo.fetched Demo.no_calls)));
    [| reflexivity | right; reflexivity | reflexivity
     | apply Z.leb_le; vm_compute; reflexivity | reflexivity].
  vm_compute. reflexivity.
Defined.

(** * Further properties *)

(** ** More on [text_split] *)

Section TextSplitMore.

Implicit Types (s t text : string) (lines cur g : list string).

Lemma line_chars_nonneg g : 0 <= line_chars g.
Proof.
  induction g as [|x g IH]; simpl; [done |]. pose proof (len_nonneg x).
  unfold line_chars in *. lia.
Qed.

Lemma text_split_loop_cuts_all sizeLimit lines tempList wordCounter :
  sizeLimit <= 0 -> 0 <= wordCounter ->
  text_split_loop sizeLimit lines tempList wordCounter = tempList ++ lines.
Proof.
  intros HL. revert tempList wordCounter.
  induction lines as [|line lines IH]; intros tl wc Hwc; simpl.
  - by rewrite app_nil_r.
  - pose proof (len_nonneg line).
    destruct (Z.ltb_spec (wc + Str.len line) sizeLimit); [lia |].
    rewrite IH by done. by rewrite <- app_assoc.
Qed.

Lemma pack_fits sizeLimit lines cur :
  line_chars cur + line_chars lines < sizeLimit ->
  pack sizeLimit cur (line_chars cur) lines = [cur ++ lines].
Proof.
  revert cur. induction lines as [|line lines IH]; intros cur Hfit; simpl.
  - by rewrite app_nil_r.
  - pose proof (line_chars_nonneg lines). simpl in Hfit.
    destruct (Z.ltb_spec (line_chars cur + Str.len line) sizeLimit);
      [|unfold line_chars in *; lia].
    replace (line_chars cur + Str.len line) with (line_chars (cur ++ [line]))
      by (rewrite line_chars_app; simpl; lia).
    rewrite IH; [by rewrite <- app_assoc |].
    rewrite line_chars_app. simpl. unfold line_chars in *. lia.
Qed.

Lemma pack_length sizeLimit lines cur wordCounter :
  (1 <= length (pack sizeLimit cur wordCounter lines) <= S (length lines))%nat.
Proof.
  revert cur wordCounter. induction lines as [|line lines IH]; intros cur wc; simpl.
  - lia.
  - destruct (wc + Str.len line <? sizeLimit).
    + specialize (IH (cur ++ [line]) (wc + Str.len line)). lia.
    + specialize (IH [line] (Str.len line)). simpl. lia.
Qed.

End TextSplitMore.

(** X1: [text_split] never returns an empty list, and never more chunks than
    the text has lines. *)
Theorem text_split_chunk_count (text : string) (sizeLimit : Z) :
  (1 <= length (text_split text sizeLimit)
   <= length (Str.split Str.nl_char text))%nat.
Proof.
  unfold text_split.
  pose proof (split_not_nil Str.nl_char text) as Hnil.
  destruct (Str.split Str.nl_char text) as [|first rest]; [done |].
  rewrite (text_split_loop_pack sizeLimit rest [] [first]) by done.
  simpl app. rewrite length_map.
  pose proof (pack_length sizeLimit rest [first] (Str.len first)). simpl. lia.
Qed.

(** X2: with a limit of 0 or less nothing is packed: every line of the text
    is a chunk of its own. *)
Theorem text_split_nonpositive_limit (text : string) (sizeLimit : Z) :
  sizeLimit <= 0 -> text_split text sizeLimit = Str.split Str.nl_char text.
Proof.
  intros HL. unfold text_split.
  destruct (Str.split Str.nl_char text) as [|first rest]; [done |].
  apply text_split_loop_cuts_all; [done | apply len_nonneg].
Qed.

Lemma text_split_nonpositive_limit_witness :
  text_split ("AAB" +:+ Str.nl +:+ "DGF") 0 = ["AAB"; "DGF"].
Proof.
  apply (text_split_nonpositive_limit ("AAB" +:+ Str.nl +:+ "DGF") 0). lia.
Defined.

(** X3: a text that is shorter than the limit is one chunk, the text itself. *)
Theorem text_split_short_text (text : string) (sizeLimit : Z) :
  Str.len text < sizeLimit -> text_split text sizeLimit = [text].
Proof.
  intros Hshort. unfold text_split.
  pose proof (join_split Str.nl_char text) as Hjs.
  pose proof (split_not_nil Str.nl_char text) as Hnil.
  destruct (Str.split Str.nl_char text) as [|first rest] eqn:Hsplit; [done |].
  rewrite (text_split_loop_pack sizeLimit rest [] [first]) by done.
  assert (Hlen : Str.len text = line_chars (first :: rest) + Z.of_nat (length (first :: rest)) - 1).
  { rewrite <- Hjs at 1. by apply len_join_nl. }
  replace (Str.len first) with (line_chars [first]) by (simpl; lia).
  rewrite pack_fits.
  - cbn [app map]. f_equal. exact Hjs.
  - simpl in *. unfold line_chars in *. lia.
Qed.

Lemma text_split_short_text_witness :
  text_split ("AAB" +:+ Str.nl +:+ "DGF") 10 = ["AAB" +:+ Str.nl +:+ "DGF"].
Proof.
  apply (text_split_short_text ("AAB" +:+ Str.nl +:+ "DGF") 10). vm_compute. reflexivity.
Defined.

(** ** [text_split] under a rational limit *)

Lemma int_lt_ceiling (k : Z) (q : Q) : int_lt k q = (k <? Qceiling q).
Proof.
  unfold int_lt. destruct (Z.ltb_spec k (Qceiling q)) as [Hlt|Hge].
  - apply negb_true_iff. destruct (Qle_bool q (inject_Z k)) eqn:Hle; [|done].
    apply Qle_bool_iff in Hle. exfalso.
    pose proof (Qceiling_lt q) as Hc.
    assert (Hk : (inject_Z k <= inject_Z (Qceiling q - 1))%Q) by (rewrite <- Zle_Qle; lia).
    eapply Qlt_irrefl, Qle_lt_trans; [exact Hle |].
    eapply Qle_lt_trans; [exact Hk | exact Hc].
  - apply negb_false_iff, Qle_bool_iff.
    eapply Qle_trans; [apply Qle_ceiling |]. by rewrite <- Zle_Qle.
Qed.

Lemma text_split_loop_q_ceiling (q : Q) lines tempList wordCounter :
  text_split_loop_q q lines tempList wordCounter
  = text_split_loop (Qceiling q) lines tempList wordCounter.
Proof.
  revert tempList wordCounter.
  induction lines as [|line lines IH]; intros tl wc; simpl; [done |].
  rewrite int_lt_ceiling. by destruct (wc + Str.len line <? Qceiling q).
Qed.

(** X4: under a limit that is not an integer, [text_split] packs as under
    that limit rounded up; under an integer limit given as a rational, as
    under that integer. *)
Theorem text_split_q_ceiling (text : string) :
  (forall q : Q, text_split_q text q = text_split text (Qceiling q))
  /\ (forall n : Z, text_split_q text (inject_Z n) = text_split text n).
Proof.
  assert (H : forall q : Q, text_split_q text q = text_split text (Qceiling q)).
  { intros q. unfold text_split_q, text_split.
    destruct (Str.split Str.nl_char text); [done | apply text_split_loop_q_ceiling]. }
  split; [done |]. intros n. by rewrite H, Qceiling_Z.
Qed.

(** ** The comparison of the evaluation *)

(** X5: the comparison of [evaluate.py] holds exactly when one of the two
    strings is a prefix of the other: characters beyond the shorter string
    are not looked at, and an empty string agrees with every string. *)
Theorem labels_agree_prefix (answer prediction : string) :
  labels_agree answer prediction = true
  <-> String.prefix answer prediction = true \/ String.prefix prediction answer = true.
Proof.
  revert prediction. induction answer as [|x answer IH]; intros [|y prediction]; simpl.
  - tauto.
  - tauto.
  - tauto.
  - destruct (Ascii.eqb_spec x y) as [->|Hne].
    + destruct (ascii_dec y y) as [_|]; [|done]. simpl. apply IH.
    + destruct (ascii_dec x y) as [|_]; [done |].
      destruct (ascii_dec y x) as [->|_]; [done |]. simpl.
      split; [done | by intros [|]].
Qed.

(** ** More on the search *)

Section SearchMore.

Context {World : Type}.
Variable run_llm :
  string -> string -> string -> option Z -> World -> (string + string) * World.
Variable fts5_accepts : string -> bool.
Variable fts5_match : string -> Article.t -> bool.
Variable bm25 : list Article.t -> string -> Article.t -> Q.

#[local] Abbreviation select_matching := (select_matching fts5_match bm25).
#[local] Abbreviation find_articles := (find_articles run_llm fts5_accepts fts5_match bm25).
#[local] Abbreviation extract_keywords := (extract_keywords run_llm).

(** The order of the hits. *)
#[local] Abbreviation by_relevance :=
  (fun h h' : Hit.t => (Hit.relevance_score h <= Hit.relevance_score h')%Q).

Lemma insert_by_relevance_perm h l : Table.insert_by_relevance h l ≡ₚ h :: l.
Proof.
  induction l as [|h' l IH]; simpl; [done |].
  destruct (Qle_bool _ _); [done |]. rewrite IH. apply Permutation_swap.
Qed.

Lemma order_by_relevance_perm l : Table.order_by_relevance l ≡ₚ l.
Proof.
  induction l as [|h l IH]; simpl; [done |].
  by rewrite insert_by_relevance_perm, IH.
Qed.

Lemma insert_by_relevance_sorted h l :
  StronglySorted by_relevance l ->
  StronglySorted by_relevance (Table.insert_by_relevance h l).
Proof.
  induction 1 as [|h' l Hl IH Hh']; simpl; [by repeat constructor |].
  destruct (Qle_bool (Hit.relevance_score h) (Hit.relevance_score h')) eqn:Hle.
  - apply Qle_bool_iff in Hle. constructor; [by constructor |].
    constructor; [done |]. eapply Forall_impl; [exact Hh' |].
    intros x Hx. simpl in *. by eapply Qle_trans.
  - assert (Hge : (Hit.relevance_score h' <= Hit.relevance_score h)%Q).
    { destruct (Qlt_le_dec (Hit.relevance_score h') (Hit.relevance_score h)) as [?|Hc];
        [by apply Qlt_le_weak |].
      apply Qle_bool_iff in Hc. congruence. }
    constructor; [done |].
    rewrite insert_by_relevance_perm. by constructor.
Qed.

Lemma order_by_relevance_sorted l : StronglySorted by_relevance (Table.order_by_relevance l).
Proof.
  induction l as [|h l IH]; simpl; [constructor | by apply insert_by_relevance_sorted].
Qed.

Lemma sql_limit_sorted limit (l : list Hit.t) :
  StronglySorted by_relevance l -> StronglySorted by_relevance (Table.sql_limit limit l).
Proof.
  unfold Table.sql_limit. destruct (limit <? 0); [done |].
  generalize (Z.to_nat limit). intros n Hl. revert n.
  induction Hl as [|h l Hl IH Hh]; intros [|n]; simpl; try constructor; [apply IH |].
  by apply Forall_take.
Qed.

Lemma sql_limit_subseteq {A} limit (l : list A) x : x ∈ Table.sql_limit limit l -> x ∈ l.
Proof.
  unfold Table.sql_limit. destruct (limit <? 0); [done |].
  intros Hx. rewrite <- (take_drop (Z.to_nat limit) l). apply elem_of_app. by left.
Qed.

Lemma sql_limit_length {A} limit (l : list A) :
  0 <= limit -> Z.of_nat (length (Table.sql_limit limit l)) <= limit.
Proof.
  intros Hl. unfold Table.sql_limit. destruct (Z.ltb_spec limit 0); [lia |].
  rewrite length_take. lia.
Qed.

Lemma sql_limit_all {A} limit (l : list A) :
  limit < 0 \/ Z.of_nat (length l) <= limit -> Table.sql_limit limit l = l.
Proof.
  intros Hl. unfold Table.sql_limit. destruct (Z.ltb_spec limit 0); [done |].
  apply take_ge. lia.
Qed.

Lemma omap_length_le {A B} (f : A -> option B) (l : list A) :
  (length (omap f l) <= length l)%nat.
Proof. induction l as [|x l IH]; csimpl; [done |]. destruct (f x); simpl; lia. Qed.

(** What a hit says of the table. *)
#[local] Abbreviation hit_of :=
  (fun (rows : list Article.t) (query : string) (i : nat) (a : Article.t) (h : Hit.t) =>
     rows !! i = Some a
     /\ fts5_match query a = true
     /\ h = {| Hit.rowid := Z.of_nat (S i); Hit.title := Article.title a;
               Hit.content := Article.content a; Hit.summary := Article.summary a;
               Hit.relevance_score := bm25 rows query a |}).

Lemma select_matching_elem query limit rows h :
  h ∈ select_matching query limit rows -> exists i a, hit_of rows query i a h.
Proof.
  unfold select_matching. intros Hh%sql_limit_subseteq.
  rewrite order_by_relevance_perm in Hh.
  apply list_elem_of_omap in Hh as ([i a] & Hia & Hf).
  apply elem_of_lookup_imap_1 in Hia as (j & b & Heq & Hj). simplify_eq.
  destruct (fts5_match query b) eqn:Hm; [|done]. simplify_eq. by exists j, b.
Qed.

Lemma select_matching_all query limit rows i a :
  limit < 0 \/ Z.of_nat (length rows) <= limit ->
  rows !! i = Some a -> fts5_match query a = true ->
  exists h, h ∈ select_matching query limit rows /\ hit_of rows query i a h.
Proof.
  intros Hl Hi Hm. unfold select_matching.
  eexists. split; [|done].
  rewrite sql_limit_all.
  - rewrite order_by_relevance_perm. apply list_elem_of_omap.
    exists (i, a). split; [by apply elem_of_lookup_imap_2 |]. by rewrite Hm.
  - destruct Hl as [?|Hl]; [by left | right].
    etrans; [|exact Hl]. apply Nat2Z.inj_le.
    rewrite (Permutation_length (order_by_relevance_perm _)).
    etrans; [apply omap_length_le |]. by rewrite length_imap.
Qed.

(** X6: what [find_articles] returns is the answer of the index to a query
    it accepts (the query given, when there is no recovery text): the hits
    are in ascending order of relevance score, at most [limit] of them when
    [limit] is not negative, and each hit is a row of the table that matches
    that query, with its rowid, its title, content and summary, and its bm25
    score.  The table is left as it was. *)
Theorem find_articles_hits (fuel : nat) (query : string) (limit : Z) (timebias_alpha : Q)
    (keywords_text : option string) (model : string) (st st' : state) (hits : list Hit.t) :
  find_articles fuel query limit timebias_alpha keywords_text model st
  = Some (Returned hits, st') ->
  db st' = db st
  /\ exists query',
      fts5_accepts query' = true
      /\ (keywords_text = None -> query' = query)
      /\ StronglySorted by_relevance hits
      /\ (0 <= limit -> Z.of_nat (length hits) <= limit)
      /\ Forall (fun h => exists i a, hit_of (db st) query' i a h) hits.
Proof.
  intros H.
  assert (Hfit : Table.sqlite_int limit = true).
  { destruct (Table.sqlite_int limit) eqn:Hbig; [done |].
    destruct fuel as [|fuel]; [done |].
    by rewrite find_articles_overflow in H. }
  apply find_articles_spec in H as (Hdb & query' & Hacc & -> & Hq); [|done].
  split; [done |]. exists query'. split; [done |].
  split; [intros ->; by destruct Hq |].
  split; [apply sql_limit_sorted, order_by_relevance_sorted |].
  split; [apply sql_limit_length |].
  apply Forall_forall. intros h. apply select_matching_elem.
Qed.

(** X7: without a limit that cuts (a negative [limit], which SQLite reads as
    no limit, or one that is at least the number of rows), the limit being
    an integer that SQLite can hold (a signed 64-bit integer), every row
    that matches an accepted query is among the hits. *)
Theorem find_articles_complete (fuel : nat) (query : string) (limit : Z)
    (timebias_alpha : Q) (keywords_text : option string) (model : string) (st : state)
    (i : nat) (a : Article.t) :
  Table.sqlite_int limit = true ->
  fts5_accepts query = true ->
  limit < 0 \/ Z.of_nat (length (db st)) <= limit ->
  db st !! i = Some a ->
  fts5_match query a = true ->
  exists hits h,
    find_articles (S fuel) query limit timebias_alpha keywords_text model st
    = Some (Returned hits, st)
    /\ h ∈ hits /\ hit_of (db st) query i a h.
Proof.
  intros Hfit Hacc Hl Hi Hm.
  destruct (select_matching_all query limit (db st) i a Hl Hi Hm) as (h & Hh & Hhit).
  exists (select_matching query limit (db st)), h. split; [|done].
  simpl. unfold cursor_execute. by rewrite Hfit, Hacc.
Qed.

(** X8: a query that the index rejects, with no recovery text and a limit
    that SQLite can hold (a signed 64-bit integer), is sent to the index
    again and again: [find_articles] neither returns nor raises, whatever
    the fuel.  (With a limit that SQLite cannot hold the first [execute]
    raises [OverflowError], which leaves [find_articles].) *)
Theorem find_articles_spins_without_recovery (fuel : nat) (query : string) (limit : Z)
    (timebias_alpha : Q) (model : string) (st : state) :
  Table.sqlite_int limit = true ->
  fts5_accepts query = false ->
  find_articles fuel query limit timebias_alpha None model st = None
  /\ forall big : Z,
       Table.sqlite_int big = false ->
       find_articles (S fuel) query big timebias_alpha None model st
       = Some (Raised Table.int_too_large, st).
Proof.
  intros Hfit Hrej. split.
  - induction fuel as [|fuel IH]; [done |].
    simpl. unfold cursor_execute. by rewrite Hfit, Hrej.
  - intros big Hbig. by apply find_articles_overflow.
Qed.

(** X9: an answer of the generation service with fewer than 10 pieces is
    returned by [extract_keywords] after that one call, with one [info]
    record; and whatever happens, [extract_keywords] leaves the table as it
    was and raises nothing but a failure of the generation service. *)
Theorem extract_keywords_first_answer (fuel : nat) (text model : string) (st : state) :
  (forall key w,
      run_llm keywords_system ("Text: " +:+ text) model None (world st) = (inl key, w) ->
      (length (Str.split Str.sp_char key) < 10)%nat ->
      extract_keywords (S fuel) text model None st
      = Some (Returned key,
              {| db := db st; world := w;
                 log := log st ++ [Info ("get keywords: " +:+ key)] |}))
  /\ (forall seed r st',
        extract_keywords fuel text model seed st = Some (r, st') ->
        db st' = db st
        /\ match r with
           | Raised e => generation_failure run_llm e
           | Returned _ => True
           end).
Proof.
  split.
  - intros key w Hllm Hshort.
    unfold extract_keywords, bind, call_llm. rewrite Hllm. simpl.
    destruct (Z.ltb_spec (Z.of_nat (length (Str.split Str.sp_char key))) 10); [done | lia].
  - intros seed r st' H. apply extract_keywords_spec in H as [Hdb Hr].
    split; [done |]. by destruct r.
Qed.

End SearchMore.

(** ** More on the crawl *)

Section CrawlMore.

Context {World : Type}.
Variable run_llm :
  string -> string -> string -> option Z -> World -> (string + string) * World.
Variable fetch_page_data : string -> World -> fetch_result * World.

#[local] Abbreviation add_url := (add_url run_llm fetch_page_data).
#[local] Abbreviation add_url_body := (add_url_body run_llm fetch_page_data).
#[local] Abbreviation add_url_store := (add_url_store run_llm fetch_page_data).
#[local] Abbreviation add_url_dupe := (add_url_dupe fetch_page_data).
#[local] Abbreviation crawl := (crawl run_llm fetch_page_data).

Implicit Types (st : @state World) (url model : string) (links : list string).
Implicit Types (self : string -> string -> Z -> bool -> M (@state World) unit).

(** *** Invariants of the table *)

Section Invariant.

(** A property [I] of tables that the two writes of [add_url] keep: the
    update of a depth to a budget, [D] at most, and the insert of a row whose
    url passed the domain gate, whose content passed the size gate and, where
    duplicates are not allowed, whose url was not stored. *)
Variable I : list Article.t -> Prop.
Variable D : Z.
Variable dupes : bool.

Hypothesis I_update :
  forall rows i d, d <= D -> I rows -> I (Table.update_depth i d rows).

Hypothesis I_insert :
  forall rows row allow,
    allow = false \/ allow = dupes ->
    Article.depth row <= D ->
    Str.contains "hmc.edu" (Article.url row) = true ->
    Str.len (Article.content row) <= 30000 ->
    (allow = false -> Table.count_url (Article.url row) rows = 0) ->
    I rows -> I (Table.insert row rows).

Lemma follow_links_invariant self links model d :
  (forall link st r st',
      I (db st) -> self link model (d - 1) false st = Some (r, st') -> I (db st')) ->
  forall st r st',
    I (db st) -> follow_links self links model d st = Some (r, st') -> I (db st').
Proof.
  intros Hself st r st' HI H. revert HI.
  apply (for_each_preserves (fun st st' => I (db st) -> I (db st'))
           links (fun link => self link model (d - 1) false)) with (r := r);
    [auto | auto | | exact H].
  intros link st0 r0 st0' H0 HI0. by eapply Hself.
Qed.

Lemma add_url_store_invariant self url model d allow st r st' :
  (forall link st r st',
      I (db st) -> self link model (d - 1) false st = Some (r, st') -> I (db st')) ->
  allow = false \/ allow = dupes ->
  d <= D ->
  Str.contains "hmc.edu" url = true ->
  (allow = false -> Table.count_url url (db st) = 0) ->
  I (db st) ->
  add_url_store self url model d st = Some (r, st') ->
  I (db st').
Proof.
  intros Hself Hallow HD Hin Hnew HI H.
  pose proof (follow_links_invariant self) as Hloop.
  unfold add_url_store, bind, call_fetch, logging, try_except, summarize_text,
    call_llm, set_db, ret, raise in H.
  destruct (fetch_page_data url (world st)) as [[data| |msg] w]; simpl in H;
    simplify_eq; try done.
  destruct (Z.ltb_spec 30000 (Str.len (Page.content data))).
  { destruct (0 <? d); simplify_eq; [|done]. by eapply Hloop in H. }
  destruct (run_llm _ _ _ _ _) as [[summary|msg] w']; simpl in H.
  - destruct (Table.sqlite_int d); simpl in H; [| by simplify_eq].
    match type of H with
    | context [Table.insert ?row (db st)] =>
        assert (HI1 : I (Table.insert row (db st)))
          by (apply (I_insert _ _ allow); simpl; auto)
    end.
    destruct (0 <? d); simplify_eq; [|done]. by eapply Hloop in H.
  - destruct (0 <? d); simplify_eq; [|done]. by eapply Hloop in H.
Qed.

Lemma add_url_dupe_invariant self url model d st r st' :
  (forall link st r st',
      I (db st) -> self link model (d - 1) false st = Some (r, st') -> I (db st')) ->
  d <= D ->
  I (db st) ->
  add_url_dupe self url model d st = Some (r, st') ->
  I (db st').
Proof.
  intros Hself HD HI H.
  pose proof (follow_links_invariant self) as Hloop.
  unfold add_url_dupe, bind, call_fetch, logging, get_db, set_db, ret, raise in H.
  simpl in H.
  destruct (Table.first_with_url url (db st)) as [[i a]|]; simplify_eq; [|done].
  destruct (Article.depth a <? d); simplify_eq; [|done].
  simpl in H.
  destruct (fetch_page_data url (world st)) as [[data| |msg] w]; simpl in H;
    simplify_eq; try done.
  destruct (follow_links self _ _ _ _) as [[[[]|e] st2]|] eqn:Hlinks; simplify_eq.
  - eapply Hloop in Hlinks; [|done..].
    destruct (Table.first_with_url url (db st2)) as [[j a2]|]; simplify_eq; [|done].
    destruct (Table.sqlite_int d); simplify_eq; simpl; [by apply I_update | done].
  - by eapply Hloop in Hlinks.
Qed.

Lemma add_url_invariant fuel url model d allow st r st' :
  allow = false \/ allow = dupes ->
  d <= D ->
  I (db st) ->
  add_url fuel url model d allow st = Some (r, st') ->
  I (db st').
Proof.
  revert url model d allow st r st'.
  induction fuel as [|fuel IH]; intros url model d allow st r st' Hallow HD HI H; [done |].
  simpl in H. apply catch_errors_inv in H as (_ & r1 & st1 & H & -> & _).
  assert (Hself : forall link st r st',
             I (db st) -> add_url fuel link model (d - 1) false st = Some (r, st') ->
             I (db st')).
  { intros link st0 r0 st0' HI0 H0. eapply (IH link model (d - 1) false); eauto. lia. }
  unfold add_url_body in H.
  destruct (Str.contains "hmc.edu" url) eqn:Hin; simpl in H.
  2:{ unfold logging in H. by simplify_eq. }
  rewrite bind_get_db in H.
  destruct allow; simpl in H.
  - by eapply (add_url_store_invariant _ _ _ _ true).
  - destruct (Z.ltb_spec 0 (Table.count_url url (db st))).
    + by eapply add_url_dupe_invariant.
    + eapply (add_url_store_invariant _ _ _ _ false); eauto.
      intros _. unfold Table.count_url in *. lia.
Qed.

End Invariant.

Lemma count_url_zero u (rows : list Article.t) :
  Table.count_url u rows = 0 <-> u ∉ map Article.url rows.
Proof.
  unfold Table.count_url. induction rows as [|a rows IH]; simpl.
  - split; [intros _ H; by apply elem_of_nil in H | done].
  - rewrite filter_cons, not_elem_of_cons. case_decide as Ha; simpl.
    + split; [lia | intros [? _]; congruence].
    + rewrite IH. split; [intros ?; split; [congruence | done] | by intros [_ ?]].
Qed.

Lemma map_url_update_depth i d (rows : list Article.t) :
  map Article.url (Table.update_depth i d rows) = map Article.url rows.
Proof.
  unfold Table.update_depth. revert i.
  induction rows as [|a rows IH]; intros [|i]; [done | done | |].
  - change (alter (Article.set_depth d) 0%nat (a :: rows))
      with (Article.set_depth d a :: rows). simpl. by destruct a.
  - change (alter (Article.set_depth d) (S i) (a :: rows))
      with (a :: alter (Article.set_depth d) i rows). simpl. by rewrite IH.
Qed.

(** X10: as long as duplicates are not allowed, the urls of the table stay
    unique: a sequence of calls of [add_url] without [allow_dupes] that
    starts from a table with one row per url at most ends in such a table. *)
Theorem crawl_keeps_urls_unique (fuel : nat) (visits : list visit) (st : state)
    (r : outcome unit) (st' : state) :
  Forall (fun v => visit_allow_dupes v = false) visits ->
  NoDup (map Article.url (db st)) ->
  crawl fuel visits st = Some (r, st') ->
  NoDup (map Article.url (db st')).
Proof.
  intros Hv Hnodup H. revert st r st' Hnodup H.
  induction Hv as [|v visits Hfalse Hv IH]; intros st r st' Hnodup H.
  - unfold crawl, for_each, ret in H. by simplify_eq.
  - unfold crawl in H. simpl in H.
    apply bind_Some in H as [(e & H & _)|([] & st1 & H & Hk)].
    + by apply add_url_returns in H.
    + apply (IH st1 r st'); [|exact Hk].
      eapply (add_url_invariant (fun rows => NoDup (map Article.url rows))
                (visit_depth v) false); [| | | | exact Hnodup | exact H].
      * intros rows i d _. by rewrite map_url_update_depth.
      * intros rows row allow Hallow _ _ _ Hnew Hrows.
        assert (allow = false) as -> by (by destruct Hallow).
        unfold Table.insert. rewrite map_app. simpl.
        apply NoDup_app. split; [done |]. split; [|apply NoDup_singleton].
        intros u Hu Hu'. apply list_elem_of_singleton in Hu'. subst u.
        revert Hu. apply count_url_zero. by apply Hnew.
      * left. exact Hfalse.
      * lia.
Qed.

(** X11: [add_url] only ever stores pages of the allowed domain and of the
    allowed size: if every row has a url with ["hmc.edu"] in it and a content
    of 30,000 characters at most, this is so after any call too, with or
    without [allow_dupes]. *)
Theorem add_url_stores_only_gated_pages (fuel : nat) (url model : string) (d : Z)
    (allow : bool) (st : state) (r : outcome unit) (st' : state) :
  Forall (fun a => Str.contains "hmc.edu" (Article.url a) = true
                   /\ Str.len (Article.content a) <= 30000) (db st) ->
  add_url fuel url model d allow st = Some (r, st') ->
  Forall (fun a => Str.contains "hmc.edu" (Article.url a) = true
                   /\ Str.len (Article.content a) <= 30000) (db st').
Proof.
  intros HF H.
  eapply (add_url_invariant _ d allow); [| | | | exact HF | exact H].
  - intros rows i d' _ Hrows. unfold Table.update_depth.
    apply Forall_alter; [done |]. intros a _ Ha. by destruct a.
  - intros rows row allow' _ _ Hin Hlen _ Hrows.
    apply Forall_app. split; [done |]. by repeat constructor.
  - by right.
  - lia.
Qed.

(** X12: a visit with a budget [d] of 0 or more, on a table whose depths are
    0 or more, never recurses deeper than [d] levels: it returns with any
    fuel above [d].  The depths stay 0 or more, and no depth ends above a
    bound [D] that the budget and the depths stored respect. *)
Theorem add_url_budget_bounds (url model : string) (d : Z) (allow : bool) (st : state) :
  0 <= d ->
  Forall (fun a => 0 <= Article.depth a) (db st) ->
  exists st',
    (forall fuel, (Z.to_nat d < fuel)%nat ->
                  add_url fuel url model d allow st = Some (Returned tt, st'))
    /\ Forall (fun a => 0 <= Article.depth a) (db st')
    /\ (forall D, d <= D ->
                  Forall (fun a => Article.depth a <= D) (db st) ->
                  Forall (fun a => Article.depth a <= D) (db st')).
Proof.
  intros Hd HF.
  destruct (add_url_total run_llm fetch_page_data 0 (S (Z.to_nat d)) url model d allow st)
    as (st' & H & HF'); [lia | lia | done | lia |].
  exists st'. split; [| split; [done |]].
  - intros fuel Hfuel. eapply add_url_fuel_mono; [|exact H]. lia.
  - intros D HD HFD.
    eapply (add_url_invariant _ D allow); [| | | | exact HFD | exact H].
    + intros rows i d' Hd' Hrows. unfold Table.update_depth.
      apply Forall_alter; [done |]. intros a _ _. by simpl.
    + intros rows row allow' _ Hrow _ _ _ Hrows.
      apply Forall_app. split; [done |]. by repeat constructor.
    + by right.
    + done.
Qed.

(** *** Storing and finding again *)

Lemma rows_upgraded_length bound (rows rows' : list Article.t) :
  rows_upgraded bound rows rows' -> (length rows <= length rows')%nat.
Proof.
  intros (kept & added & -> & H). rewrite length_app, (Forall2_length _ _ _ H). lia.
Qed.

(** X13: a page that passes the gates, is fetched and is summarized is
    stored, the budget being an integer that SQLite can hold (a signed
    64-bit integer): the row holds the title, content and dates of the page,
    the summary, and the budget as depth.  After the visit, whatever it found on
    the links, that row sits right after the rows that were there; it is the
    row found for the url when the url was new; with a budget of 0 or less
    the table is the old one and that row; and [len(db)] has grown. *)
Theorem add_url_stores_fetched_page (fuel : nat) (url model : string) (d : Z)
    (allow : bool) (st : state) (data : Page.t) (w w' : World) (summary : string)
    (r : outcome unit) (st' : state) :
  Table.sqlite_int d = true ->
  Str.contains "hmc.edu" url = true ->
  allow = true \/ Table.count_url url (db st) = 0 ->
  fetch_page_data url (world st) = (Fetched data, w) ->
  Str.len (Page.content data) <= 30000 ->
  run_llm summarize_system (Page.content data) model None w = (inl summary, w') ->
  add_url (S fuel) url model d allow st = Some (r, st') ->
  let row := {| Article.title := Page.title data;
                Article.content := Page.content data;
                Article.url := url;
                Article.publish_date := Page.publish_date data;
                Article.crawl_date := Page.crawl_date data;
                Article.summary := summary;
                Article.depth := d |} in
  db st' !! length (db st) = Some row
  /\ (Table.count_url url (db st) = 0 ->
      Table.first_with_url url (db st') = Some (length (db st), row))
  /\ (d <= 0 -> db st' = db st ++ [row])
  /\ Table.count (db st) + 1 <= Table.count (db st').
Proof.
  intros Hfit Hin Hnew Hfetch Hlen Hllm H row.
  rewrite (add_url_store_path _ _ _ _ _ _ _ _ Hin Hnew) in H.
  apply catch_errors_inv in H as (_ & r1 & st1 & H & -> & _).
  unfold add_url_store, bind, call_fetch, logging, try_except, summarize_text,
    call_llm, set_db, ret, raise in H.
  rewrite Hfetch in H. simpl in H.
  destruct (Z.ltb_spec 30000 (Str.len (Page.content data))); [lia |].
  cbn [db world log] in H. rewrite Hllm in H. rewrite Hfit in H.
  cbn [db world log] in H.
  assert (rows_upgraded (d - 1) (db st ++ [row]) (db st1)
          /\ (d <= 0 -> db st1 = db st ++ [row])) as [Hup Hzero].
  { destruct (Z.ltb_spec 0 d).
    - split; [|lia].
      eapply (follow_links_upgrades _ _ _ _
                (fun link st r st' =>
                   add_url_upgrades run_llm fetch_page_data fuel link model (d - 1)
                     false st r st')) in H.
      exact H.
    - simplify_eq. split; [apply rows_upgraded_refl | done]. }
  assert (Hsame : forall a', row_upgraded (d - 1) row a' -> a' = row).
  { intros a' [Ha' Hd']. rewrite Ha'. simpl in Hd'.
    destruct Hd' as [->|?]; [done | lia]. }
  assert (Hrow : (db st ++ [row]) !! length (db st) = Some row).
  { rewrite lookup_app_r by lia. by rewrite Nat.sub_diag. }
  split; [| split; [| split]].
  - destruct (rows_upgraded_lookup _ _ _ _ _ Hup Hrow) as (a' & Ha' & Hrel).
    by rewrite <- (Hsame a' Hrel).
  - intros Hzero_count.
    assert (Hfirst : Table.first_with_url url (db st ++ [row])
                     = Some (length (db st), row)).
    { unfold Table.first_with_url. rewrite list_find_app_r.
      - simpl. rewrite decide_True by done. simpl. f_equal.
      - destruct (list_find _ (db st)) as [[j b]|] eqn:Hfind; [|done].
        assert (Hpos : (0 <? Table.count_url url (db st)) = true).
        { apply count_url_first. unfold Table.first_with_url. by rewrite Hfind. }
        rewrite Hzero_count in Hpos. done. }
    destruct (rows_upgraded_first _ _ _ _ _ _ Hup Hfirst) as (a' & Ha' & Hrel).
    by rewrite <- (Hsame a' Hrel).
  - done.
  - apply rows_upgraded_length in Hup. rewrite length_app in Hup. simpl in Hup.
    unfold Table.count. lia.
Qed.

(** X14: when the fetch of a url fails (it returns [None]), the visit stores
    nothing and follows no link: it returns with the table as it was. *)
Theorem add_url_fetch_failure (fuel : nat) (url model : string) (d : Z)
    (allow : bool) (st : state) (w : World) :
  fetch_page_data url (world st) = (NoData, w) ->
  exists st',
    add_url (S fuel) url model d allow st = Some (Returned tt, st')
    /\ db st' = db st.
Proof.
  intros Hfetch. simpl. unfold _catch_errors, add_url_body.
  destruct (negb (Str.contains "hmc.edu" url)); [unfold logging; eauto |].
  rewrite bind_get_db.
  destruct (negb allow && (0 <? Table.count_url url (db st))).
  - unfold add_url_dupe, bind, call_fetch, logging, get_db, set_db, ret, raise. simpl.
    destruct (Table.first_with_url url (db st)) as [[i a]|]; [|eauto].
    destruct (Article.depth a <? d); [|eauto]. simpl. rewrite Hfetch. eauto.
  - unfold add_url_store, bind, call_fetch. rewrite Hfetch. eauto.
Qed.

End CrawlMore.

(** ** The compressor and the orchestrator *)

Section OrchestratorFacts.

Context {World : Type}.
Variable run_llm :
  string -> string -> string -> option Z -> World -> (string + string) * World.
Variable fts5_accepts : string -> bool.
Variable fts5_match : string -> Article.t -> bool.
Variable bm25 : list Article.t -> string -> Article.t -> Q.

#[local] Abbreviation call_llm := (call_llm run_llm).
#[local] Abbreviation generation_failure := (generation_failure run_llm).
#[local] Abbreviation summarize_paragraphs := (summarize_paragraphs run_llm).
#[local] Abbreviation recursive_summary := (recursive_summary run_llm).
#[local] Abbreviation rag_search := (rag_search run_llm fts5_accepts fts5_match bm25).
#[local] Abbreviation rag_answer := (rag_answer run_llm).
#[local] Abbreviation rag := (rag run_llm fts5_accepts fts5_match bm25).

Implicit Types (st : @state World) (text model sources : string).

Lemma int_gt_false (k : Z) (q : Q) : int_gt k q = false <-> (inject_Z k <= q)%Q.
Proof. unfold int_gt. rewrite negb_false_iff. apply Qle_bool_iff. Qed.

Lemma summarize_paragraphs_spec (textList : list string) model newText st r st' :
  summarize_paragraphs textList model newText st = Some (r, st') ->
  db st' = db st /\ log st' = log st
  /\ match r with
     | Raised e => generation_failure e
     | Returned t => Str.len newText + 2 * Z.of_nat (length textList) <= Str.len t
     end.
Proof.
  revert newText st. induction textList as [|p textList IH]; intros acc st H; simpl in H.
  - unfold ret in H. simplify_eq. split; [done |]. split; [done |]. simpl. lia.
  - apply bind_Some in H as [(e & H & ->)|(s & st1 & H & Hk)].
    + by apply call_llm_spec in H.
    + apply call_llm_spec in H as (Hdb & Hlog & _).
      apply IH in Hk as (Hdb' & Hlog' & Hr).
      split; [congruence |]. split; [congruence |].
      destruct r as [t|e]; [|done].
      rewrite !len_append in Hr. change (Str.len Str.nl) with 1 in Hr.
      pose proof (len_nonneg s). simpl length. lia.
Qed.

Lemma recursive_summary_spec fuel text (sizeLimit : Q) model st r st' :
  recursive_summary fuel text sizeLimit model st = Some (r, st') ->
  db st' = db st /\ log st' = log st
  /\ match r with
     | Raised e => generation_failure e
     | Returned t => (inject_Z (Str.len t) <= sizeLimit)%Q
     end.
Proof.
  revert text st. induction fuel as [|fuel IH]; intros text st H; [done |].
  simpl in H. destruct (int_gt (Str.len text) sizeLimit) eqn:Hgt.
  - apply bind_Some in H as [(e & H & ->)|(t & st1 & H & Hk)].
    + by apply summarize_paragraphs_spec in H.
    + apply summarize_paragraphs_spec in H as (Hdb & Hlog & _).
      apply IH in Hk as (Hdb' & Hlog' & Hr).
      split; [congruence |]. split; [congruence | done].
  - unfold ret in H. simplify_eq. by apply int_gt_false in Hgt.
Qed.

(** X15: what [recursive_summary] returns is within the limit; in [rag],
    where the limit is half the length of the sources, what comes back is half
    as long at most.  A text that is within the limit already comes back as
    it is, the generation service not being called.  [recursive_summary]
    writes neither to the table nor to the log, and what it raises is a
    failure of the generation service. *)
Theorem recursive_summary_within_limit (fuel : nat) (text : string) (model : string)
    (st : state) :
  (forall (sizeLimit : Q) r st',
      recursive_summary fuel text sizeLimit model st = Some (r, st') ->
      db st' = db st /\ log st' = log st
      /\ match r with
         | Raised e => generation_failure e
         | Returned t => (inject_Z (Str.len t) <= sizeLimit)%Q
         end)
  /\ (forall t st',
        recursive_summary fuel text (Str.len text # 2) model st = Some (Returned t, st') ->
        2 * Str.len t <= Str.len text)
  /\ (forall sizeLimit : Q,
        (inject_Z (Str.len text) <= sizeLimit)%Q ->
        recursive_summary (S fuel) text sizeLimit model st = Some (Returned text, st)).
Proof.
  split; [intros L r st'; apply recursive_summary_spec |]. split.
  - intros t st' H. apply recursive_summary_spec in H as (_ & _ & H).
    unfold Qle in H. simpl in H. lia.
  - intros L H. simpl. by rewrite (proj2 (int_gt_false _ _) H).
Qed.

(** X16: under a limit below 2, a text that is over the limit is never
    returned compressed: every round ends on the two line breaks that follow
    the last summary, so that the text stays over the limit.  A call that
    ends has raised a failure of the generation service. *)
Theorem recursive_summary_never_returns (fuel : nat) (text : string) (sizeLimit : Q)
    (model : string) (st : state) (r : outcome string) (st' : state) :
  (sizeLimit < 2)%Q ->
  ~ (inject_Z (Str.len text) <= sizeLimit)%Q ->
  recursive_summary fuel text sizeLimit model st = Some (r, st') ->
  exists e, r = Raised e /\ generation_failure e.
Proof.
  intros HL. revert text st.
  induction fuel as [|fuel IH]; intros text st Hlong H; [done |].
  simpl in H. destruct (int_gt (Str.len text) sizeLimit) eqn:Hgt.
  2:{ by apply int_gt_false in Hgt. }
  apply bind_Some in H as [(e & H & ->)|(t & st1 & H & Hk)].
  - apply summarize_paragraphs_spec in H as (_ & _ & H). eauto.
  - apply summarize_paragraphs_spec in H as (_ & _ & Hlen).
    apply (IH t st1); [|exact Hk].
    intros Ht.
    assert (Hchunks : (1 <= length (text_split_q text sizeLimit))%nat).
    { rewrite (proj1 (text_split_q_ceiling text)). apply text_split_chunk_count. }
    assert (H2 : (2 <= inject_Z (Str.len t))%Q).
    { change 2%Q with (inject_Z 2). rewrite <- Zle_Qle.
      change (Str.len "") with 0 in Hlen. lia. }
    eapply Qlt_irrefl, Qle_lt_trans; [|exact HL]. by eapply Qle_trans.
Qed.

(** *** [rag] *)

Lemma select_matching_nil query limit :
  select_matching fts5_match bm25 query limit [] = [].
Proof. unfold select_matching, Table.sql_limit. simpl. by destruct (limit <? 0), (Z.to_nat limit). Qed.

Lemma rag_search_spec fuel attempts keywords_text model (articles : list Hit.t) st r st' :
  rag_search fuel attempts keywords_text model articles st = Some (r, st') ->
  db st' = db st
  /\ match r with
     | Raised e => generation_failure e
     | Returned hits => db st = [] -> articles = [] -> hits = []
     end.
Proof.
  revert articles st. induction attempts as [|n IH]; intros articles st H; simpl in H.
  - unfold ret in H. by simplify_eq.
  - apply bind_Some in H as [(e & H & ->)|(keywords & st1 & H & Hk)].
    { by apply extract_keywords_spec in H. }
    apply extract_keywords_spec in H as [Hdb1 _].
    apply bind_Some in Hk as [(e & H & ->)|(hits & st2 & H & Hk)].
    { apply find_articles_spec in H as [? ?]; [|done]. split; [congruence | done]. }
    apply find_articles_spec in H as (Hdb2 & q & _ & Hhits & _); [|done].
    destruct (0 <? Z.of_nat (length hits)).
    + unfold ret in Hk. simplify_eq. split; [congruence |].
      intros Hnil _. rewrite Hdb1, Hnil. apply select_matching_nil.
    + apply IH in Hk as [Hdb3 Hr]. split; [congruence |].
      destruct r as [hits'|e]; [|done].
      intros Hnil _. apply Hr; [congruence |].
      rewrite Hhits, Hdb1, Hnil. apply select_matching_nil.
Qed.

Lemma rag_answer_spec fuel text model sources st r st' :
  rag_answer fuel text model sources st = Some (r, st') ->
  db st' = db st
  /\ match r with
     | Raised e => generation_failure e
     | Returned answer =>
         exists sources' w w',
           run_llm rag_system (sources' +:+ "QUESTION: " +:+ text) model None w
           = (inl answer, w')
           /\ (sources = EmptyString -> sources' = EmptyString)
     end.
Proof.
  revert sources st. induction fuel as [|fuel IH]; intros sources st H; [done |].
  simpl in H. unfold try_except, bind, logging, call_llm in H.
  cbn [db world log] in H.
  destruct (run_llm rag_system _ model None (world st)) as [[answer|msg] w] eqn:Hllm;
    cbn [db world log] in H.
  - simplify_eq. split; [done |]. by exists sources, (world st), w.
  - destruct (recursive_summary fuel sources _ model _) as [[[sources'|e] st1]|] eqn:Hrs;
      [| |done].
    + pose proof Hrs as Hrs'. apply recursive_summary_spec in Hrs' as (Hdb1 & _ & _).
      apply IH in H as [Hdb2 Hr]. split; [by rewrite Hdb2, Hdb1 |].
      destruct r as [answer|e]; [|done].
      destruct Hr as (s & w1 & w2 & Hans & Hs). exists s, w1, w2. split; [done |].
      intros ->. apply Hs. destruct fuel as [|fuel']; [done |].
      simpl in Hrs. unfold ret in Hrs. by simplify_eq.
    + simplify_eq. apply recursive_summary_spec in Hrs as (Hdb1 & _ & He). by split.
Qed.

(** X17: [rag] never writes to the table; the answer it returns is the
    answer of the generation service to the adviser's instruction and a
    message that ends with the question; and what it raises is a failure of
    the generation service (met in the extraction of keywords or in the
    compression of the sources: the failure of the answering call itself is
    trapped). *)
Theorem rag_answers_the_question (fuel : nat) (text : string)
    (keywords_text : option string) (model : string) (st : state)
    (r : outcome string) (st' : state) :
  rag fuel text keywords_text model st = Some (r, st') ->
  db st' = db st
  /\ match r with
     | Raised e => generation_failure e
     | Returned answer =>
         exists sources w w',
           run_llm rag_system (sources +:+ "QUESTION: " +:+ text) model None w
           = (inl answer, w')
     end.
Proof.
  unfold rag. intros H.
  apply bind_Some in H as [(e & H & ->)|(articles & st1 & H & Hk)].
  { by apply rag_search_spec in H. }
  apply rag_search_spec in H as [Hdb1 _]. apply rag_answer_spec in Hk as [Hdb2 Hr].
  split; [congruence |]. destruct r as [answer|e]; [|done].
  destruct Hr as (s & w1 & w2 & Hans & _). by exists s, w1, w2.
Qed.

(** X18: on an empty table [rag] finds no article, and the message it sends
    is the question alone; a failed answering call is repeated with that same
    message, the empty sources being left as they are. *)
Theorem rag_on_empty_table (fuel : nat) (text : string) (keywords_text : option string)
    (model : string) (st : state) (answer : string) (st' : state) :
  db st = [] ->
  rag fuel text keywords_text model st = Some (Returned answer, st') ->
  exists w w',
    run_llm rag_system ("QUESTION: " +:+ text) model None w = (inl answer, w').
Proof.
  unfold rag. intros Hnil H.
  apply bind_Some in H as [(e & H & ?)|(articles & st1 & H & Hk)]; [done |].
  apply rag_search_spec in H as [Hdb1 Hr]. rewrite (Hr Hnil eq_refl) in Hk.
  apply rag_answer_spec in Hk as [_ (s & w1 & w2 & Hans & Hs)].
  rewrite (Hs eq_refl) in Hans. by exists w1, w2.
Qed.

End OrchestratorFacts.

(** ** The further properties at work *)

Lemma find_articles_hits_witness :
  match Demo.find_articles 1 "biology" 1 1 None "m" Demo.library with
  | Some (Returned hits, st') => db st' = db Demo.library /\ (Z.of_nat (length hits) <= 1)
  | _ => False
  end.
Proof.
  unfold Demo.find_articles.
  destruct (find_articles _ _ _ _ 1 "biology" 1 1 None "m" Demo.library)
    as [[[hits|e] st']|] eqn:H; [| vm_compute in H; discriminate H..].
  destruct (find_articles_hits Demo.run_llm Demo.fts5_accepts Demo.fts5_match Demo.bm25
              1 "biology" 1 1 None "m" Demo.library st' hits H)
    as (Hdb & q & _ & _ & _ & Hlimit & _).
  split; [exact Hdb | apply Hlimit; lia].
Defined.

Lemma find_articles_complete_witness :
  exists hits h,
    Demo.find_articles 1 "today" (-1) 1 None "m" Demo.library
    = Some (Returned hits, Demo.library)
    /\ h ∈ hits /\ Hit.rowid h = 2.
Proof.
  destruct (find_articles_complete Demo.run_llm Demo.fts5_accepts Demo.fts5_match Demo.bm25
              0 "today" (-1) 1 None "m" Demo.library 1 Demo.recent_article)
    as (hits & h & Hrun & Hin & _ & _ & ->);
    [reflexivity | reflexivity | left; lia | reflexivity | reflexivity |].
  exists hits. eexists. split; [exact Hrun |]. split; [exact Hin | reflexivity].
Defined.

Lemma find_articles_spins_without_recovery_witness :
  Demo.find_articles 100 "AND" 5 1 None "m" Demo.library = None
  /\ Demo.find_articles 101 "AND" (2 ^ 63) 1 None "m" Demo.library
     = Some (Raised Table.int_too_large, Demo.library).
Proof.
  destruct (find_articles_spins_without_recovery Demo.run_llm Demo.fts5_accepts
              Demo.fts5_match Demo.bm25 100 "AND" 5 1 "m" Demo.library)
    as [Hspin Hbig]; [reflexivity | reflexivity |].
  split; [exact Hspin | apply (Hbig (2 ^ 63)); reflexivity].
Defined.

Lemma crawl_keeps_urls_unique_witness :
  match crawl Demo.run_llm Demo.fetch_page_data 5
          [Visit Demo.url_a "m" 1 false; Visit Demo.url_b "m" 2 false] Demo.empty with
  | Some (_, st') => NoDup (map Article.url (db st'))
  | None => False
  end.
Proof.
  destruct (crawl _ _ 5 _ Demo.empty) as [[r st']|] eqn:H; [| vm_compute in H; discriminate H].
  apply (crawl_keeps_urls_unique Demo.run_llm Demo.fetch_page_data 5
           [Visit Demo.url_a "m" 1 false; Visit Demo.url_b "m" 2 false] Demo.empty r st');
    [by repeat constructor | apply NoDup_nil_2 | exact H].
Defined.

Lemma add_url_stores_only_gated_pages_witness :
  match Demo.add_url 5 Demo.url_big "m" 2 true Demo.crawled with
  | Some (_, st') =>
      Forall (fun a => Str.contains "hmc.edu" (Article.url a) = true
                       /\ Str.len (Article.content a) <= 30000) (db st')
  | None => False
  end.
Proof.
  unfold Demo.add_url.
  destruct (add_url _ _ 5 Demo.url_big "m" 2 true Demo.crawled) as [[r st']|] eqn:H;
    [| vm_compute in H; discriminate H].
  apply (add_url_stores_only_gated_pages Demo.run_llm Demo.fetch_page_data 5
           Demo.url_big "m" 2 true Demo.crawled r st'); [|exact H].
  vm_compute. repeat constructor; discriminate.
Defined.

Lemma add_url_budget_bounds_witness :
  exists st',
    Demo.add_url 3 Demo.url_a "m" 2 false Demo.empty = Some (Returned tt, st')
    /\ Forall (fun a => 0 <= Article.depth a) (db st').
Proof.
  destruct (add_url_budget_bounds Demo.run_llm Demo.fetch_page_data Demo.url_a "m" 2
              false Demo.empty) as (st' & Hrun & Hpos & _);
    [lia | constructor |].
  exists st'. split; [apply Hrun; simpl; lia | exact Hpos].
Defined.

Lemma add_url_stores_fetched_page_witness :
  match Demo.add_url 3 Demo.url_a "m" 2 false Demo.empty with
  | Some (_, st') => Table.first_with_url Demo.url_a (db st') = Some (0%nat, Demo.row_a)
  | None => False
  end.
Proof.
  unfold Demo.add_url.
  destruct (add_url _ _ 3 Demo.url_a "m" 2 false Demo.empty) as [[r st']|] eqn:H;
    [| vm_compute in H; discriminate H].
  destruct (add_url_stores_fetched_page Demo.run_llm Demo.fetch_page_data 2
              Demo.url_a "m" 2 false Demo.empty Demo.page_a
              (Demo.fetched Demo.no_calls) (Demo.generated (Demo.fetched Demo.no_calls))
              "summary" r st')
    as (_ & Hfirst & _);
    [reflexivity | reflexivity | right; reflexivity | reflexivity
     | apply Z.leb_le; vm_compute; reflexivity | reflexivity | exact H |].
  apply Hfirst. reflexivity.
Defined.

Lemma add_url_fetch_failure_witness :
  exists st',
    Demo.add_url 1 "https://www.hmc.edu/gone" "m" 3 false Demo.empty
    = Some (Returned tt, st')
    /\ db st' = db Demo.empty.
Proof.
  apply (add_url_fetch_failure Demo.run_llm Demo.fetch_page_data 0
           "https://www.hmc.edu/gone" "m" 3 false Demo.empty (Demo.fetched Demo.no_calls)).
  reflexivity.
Defined.

Lemma recursive_summary_within_limit_witness :
  Demo.recursive_summary 1 "short" (5 # 1) "m" Demo.empty
  = Some (Returned "short"%string, Demo.empty).
Proof.
  apply (proj2 (proj2 (recursive_summary_within_limit Demo.run_llm 0 "short" "m"
                         Demo.empty)) (5 # 1)).
  vm_compute. discriminate.
Defined.

Lemma recursive_summary_never_returns_witness :
  match Demo.recursive_summary 4 "unspeakable" (1 # 1) "m" Demo.empty with
  | Some (r, _) => exists e, r = Raised e
  | None => False
  end.
Proof.
  unfold Demo.recursive_summary.
  destruct (recursive_summary _ 4 "unspeakable" (1 # 1) "m" Demo.empty) as [[r st']|] eqn:H;
    [| vm_compute in H; discriminate H].
  destruct (recursive_summary_never_returns Demo.run_llm 4 "unspeakable" (1 # 1) "m"
              Demo.empty r st') as (e & He & _);
    [vm_compute; reflexivity | vm_compute; intros Hle; apply Hle; reflexivity | exact H |].
  by exists e.
Defined.

Lemma rag_answers_the_question_witness :
  match Demo.rag 4 "which major?" None "m" Demo.library with
  | Some (_, st') => db st' = db Demo.library
  | None => False
  end.
Proof.
  unfold Demo.rag.
  destruct (rag _ _ _ _ 4 "which major?" None "m" Demo.library) as [[r st']|] eqn:H;
    [| vm_compute in H; discriminate H].
  by destruct (rag_answers_the_question Demo.run_llm Demo.fts5_accepts Demo.fts5_match
                 Demo.bm25 4 "which major?" None "m" Demo.library r st' H) as [Hdb _].
Defined.

Lemma rag_on_empty_table_witness :
  exists w w',
    Demo.run_llm rag_system ("QUESTION: " +:+ "which major?") "m" None w
    = (inl "biology major"%string, w').
Proof.
  apply (rag_on_empty_table Demo.run_llm Demo.fts5_accepts Demo.fts5_match Demo.bm25
           4 "which major?" None "m" Demo.empty "biology major"
           {| db := [];
              world := {| Demo.fetches := 0; Demo.generations := 5 |};
              log := [Info "get keywords: biology major";
                      Info "get keywords: biology major";
                      Info "get keywords: biology major";
                      Info ("rag.SYSTEM: " +:+ rag_system);
                      Info "rag.USERQUESTION: which major?"] |}); [reflexivity |].
  vm_compute. reflexivity.
Defined.
